(** * Lumix reflection layer: a shallow embedding of [engine/reflection.h]

    The development follows the header top to bottom: attributes, the
    property model, [Variant], type descriptors, type-erased functions and
    events, the registration [builder] and the property walkers.  Member
    functions that mutate an object take the object's state and return the
    new one; a call through a null function pointer, a read of a union
    member that is not the active one and an access outside a [Span] have
    no defined behaviour and are modelled by [None]. *)

From Stdlib Require Import ZArith List String Bool Lia Eqdep_dec.
Import ListNotations.
Open Scope string_scope.
Open Scope list_scope.
Open Scope Z_scope.

(* ------------------------------------------------------------------ *)
(** ** Machine scalars *)

(** [u32], [i32], [u8] and pointers are integers; [float] and [double]
    are carried as their IEEE bit patterns, which is all the reflection
    layer does with them (it stores and copies them). *)
Definition u32 := Z.
Definition i32 := Z.
Definition u8 := Z.
Definition float := Z.
Definition double := Z.
Definition ptr := Z.

(** [(u32)-1], the index [getPropertyValue] passes to [get]. *)
Definition u32_max : u32 := 4294967295.

(** Conversion of an integer to a [bits]-wide two's complement or unsigned
    integer type, as [static_cast] performs it. *)
Definition wrap (bits : Z) (signed : bool) (v : Z) : Z :=
  let m := 2 ^ bits in
  let r := v mod m in
  if signed && (2 ^ (bits - 1) <=? r) then r - m else r.

Definition to_i32 (v : Z) : i32 := wrap 32 true v.

Definition in_i32 (v : Z) : Prop := - 2 ^ 31 <= v < 2 ^ 31.

(** [EntityPtr] and [EntityRef] wrap one [i32] index. *)
Record EntityPtr := { ep_index : i32 }.
Record EntityRef := { er_index : i32 }.

(** [(EntityRef)e]: the explicit conversion keeps the index. *)
Definition EntityRef_of (e : EntityPtr) : EntityRef := {| er_index := ep_index e |}.

Definition ComponentType := Z.

Record Vec2 := { v2_x : float; v2_y : float }.
Record Vec3 := { v3_x : float; v3_y : float; v3_z : float }.
Record IVec3 := { iv3_x : i32; iv3_y : i32; iv3_z : i32 }.
Record Vec4 := { v4_x : float; v4_y : float; v4_z : float; v4_w : float }.
Record DVec3 := { dv3_x : double; dv3_y : double; dv3_z : double }.
Record Quat := { q_x : float; q_y : float; q_z : float; q_w : float }.
Record Color := { c_r : u8; c_g : u8; c_b : u8; c_a : u8 }.

(** A [Path] owns its characters; [c_str()] hands out the address of that
    buffer. *)
Record Path := { path_chars : string; path_c_str : ptr }.

(* ------------------------------------------------------------------ *)
(** ** Attributes *)

Module IAttribute.

Inductive Type_ :=
| MIN | CLAMP | RADIANS | COLOR | RESOURCE | ENUM | MULTILINE | STRING_ENUM | NO_UI.

Definition Type_eqb (a b : Type_) : bool :=
  match a, b with
  | MIN, MIN | CLAMP, CLAMP | RADIANS, RADIANS | COLOR, COLOR
  | RESOURCE, RESOURCE | ENUM, ENUM | MULTILINE, MULTILINE
  | STRING_ENUM, STRING_ENUM | NO_UI, NO_UI => true
  | _, _ => false
  end.

End IAttribute.

(** The attribute structs of the header, one constructor each.  The
    header's enum also names RADIANS, MULTILINE and NO_UI, whose structs
    live with the [builder] helpers outside the header; [OtherAttribute]
    stands for any further implementation of the interface. *)
Inductive IAttribute :=
| ResourceAttribute (resource_type : Z)
| MinAttribute (min : float)
| ClampAttribute (min max : float)
| ColorAttribute
| EnumAttribute (count : u32) (names : list string)
| StringEnumAttribute (count : u32) (names : list string)
| OtherAttribute (kind : IAttribute.Type_).

Definition getType (a : IAttribute) : IAttribute.Type_ :=
  match a with
  | ResourceAttribute _ => IAttribute.RESOURCE
  | MinAttribute _ => IAttribute.MIN
  | ClampAttribute _ _ => IAttribute.CLAMP
  | ColorAttribute => IAttribute.COLOR
  | EnumAttribute _ _ => IAttribute.ENUM
  | StringEnumAttribute _ _ => IAttribute.STRING_ENUM
  | OtherAttribute k => k
  end.

(* ------------------------------------------------------------------ *)
(** ** Variant *)

Module Variant.

Inductive Type_ :=
| VOID | PTR | BOOL | I32 | U32 | FLOAT | CSTR | ENTITY
| VEC2 | VEC3 | VEC4 | DVEC3 | COLOR | QUAT.

Definition Type_eqb (a b : Type_) : bool :=
  match a, b with
  | VOID, VOID | PTR, PTR | BOOL, BOOL | I32, I32 | U32, U32
  | FLOAT, FLOAT | CSTR, CSTR | ENTITY, ENTITY | VEC2, VEC2
  | VEC3, VEC3 | VEC4, VEC4 | DVEC3, DVEC3 | COLOR, COLOR
  | QUAT, QUAT => true
  | _, _ => false
  end.

End Variant.

(** The anonymous union of [Variant]: the constructor is the member that
    was written last (the active member). *)
Inductive VariantUnion :=
| U_b (b : bool)
| U_i (i : i32)
| U_u (u : u32)
| U_f (f : float)
| U_s (s : ptr)
| U_e (e : EntityPtr)
| U_v2 (v2 : Vec2)
| U_v3 (v3 : Vec3)
| U_v4 (v4 : Vec4)
| U_dv3 (dv3 : DVec3)
| U_ptr (p : ptr)
| U_color (color : Color)
| U_quat (quat : Quat).

Record Variant := { type : Variant.Type_; data : VariantUnion }.

(** [Variant() { type = I32; i = 0; }] *)
Definition Variant_new : Variant := {| type := Variant.I32; data := U_i 0 |}.

(** A value of one of the parameter types of the fourteen [operator =]. *)
Inductive Assignable :=
| A_bool (v : bool)
| A_i32 (v : i32)
| A_u32 (v : u32)
| A_float (v : float)
| A_Path (v : Path)
| A_cstr (v : ptr)
| A_EntityPtr (v : EntityPtr)
| A_Vec2 (v : Vec2)
| A_Vec3 (v : Vec3)
| A_Vec4 (v : Vec4)
| A_DVec3 (v : DVec3)
| A_ptr (v : ptr)
| A_Color (c : Color)
| A_Quat (q : Quat).

(** [Variant::operator =]: each overload writes one union member and then
    the tag.  The receiver's old contents play no part. *)
Definition assign (self : Variant) (x : Assignable) : Variant :=
  match x with
  | A_bool v => {| data := U_b v; type := Variant.BOOL |}
  | A_i32 v => {| data := U_i v; type := Variant.I32 |}
  | A_u32 v => {| data := U_u v; type := Variant.U32 |}
  | A_float v => {| data := U_f v; type := Variant.FLOAT |}
  | A_Path v => {| data := U_s (path_c_str v); type := Variant.CSTR |}
  | A_cstr v => {| data := U_s v; type := Variant.CSTR |}
  | A_EntityPtr v => {| data := U_e v; type := Variant.ENTITY |}
  | A_Vec2 v => {| data := U_v2 v; type := Variant.VEC2 |}
  | A_Vec3 v => {| data := U_v3 v; type := Variant.VEC3 |}
  | A_Vec4 v => {| data := U_v4 v; type := Variant.VEC4 |}
  | A_DVec3 v => {| data := U_dv3 v; type := Variant.DVEC3 |}
  | A_ptr v => {| data := U_ptr v; type := Variant.PTR |}
  | A_Color c => {| data := U_color c; type := Variant.COLOR |}
  | A_Quat q => {| data := U_quat q; type := Variant.QUAT |}
  end.

(** Reading the union member that the tag names: [b] for BOOL, [i] for
    I32, [s] for CSTR, ..., [quat] for QUAT, at the member's own type.
    VOID names no member, and a member that is not the active one cannot
    be read. *)
Definition read_tagged (v : Variant) : option Assignable :=
  match type v, data v with
  | Variant.BOOL, U_b b => Some (A_bool b)
  | Variant.I32, U_i i => Some (A_i32 i)
  | Variant.U32, U_u u => Some (A_u32 u)
  | Variant.FLOAT, U_f f => Some (A_float f)
  | Variant.CSTR, U_s s => Some (A_cstr s)
  | Variant.ENTITY, U_e e => Some (A_EntityPtr e)
  | Variant.VEC2, U_v2 x => Some (A_Vec2 x)
  | Variant.VEC3, U_v3 x => Some (A_Vec3 x)
  | Variant.VEC4, U_v4 x => Some (A_Vec4 x)
  | Variant.DVEC3, U_dv3 x => Some (A_DVec3 x)
  | Variant.PTR, U_ptr p => Some (A_ptr p)
  | Variant.COLOR, U_color c => Some (A_Color c)
  | Variant.QUAT, U_quat q => Some (A_Quat q)
  | _, _ => None
  end.

(** What the union member holds after [v = x]: the value itself, except
    for a [Path], of which only the [c_str()] pointer is kept. *)
Definition stored (x : Assignable) : Assignable :=
  match x with
  | A_Path p => A_cstr (path_c_str p)
  | _ => x
  end.

(* ------------------------------------------------------------------ *)
(** ** C++ types and type descriptors *)

(** The types that occur in bound signatures.  [TNamed] is any class or
    enum the reflection layer has no overload for. *)
Inductive CType :=
| TVoid | TBool | TI32 | TU32 | TFloat | TChar
| TEntityPtr | TEntityRef | TVec2 | TVec3 | TVec4
| TPath | TColor | TDVec3 | TQuat
| TNamed (name : string)
| TConst (t : CType)
| TPointer (t : CType)
| TRef (t : CType).

Fixpoint CType_eqb (a b : CType) : bool :=
  match a, b with
  | TVoid, TVoid | TBool, TBool | TI32, TI32 | TU32, TU32
  | TFloat, TFloat | TChar, TChar | TEntityPtr, TEntityPtr
  | TEntityRef, TEntityRef | TVec2, TVec2 | TVec3, TVec3
  | TVec4, TVec4 | TPath, TPath | TColor, TColor | TDVec3, TDVec3
  | TQuat, TQuat => true
  | TNamed n, TNamed m => String.eqb n m
  | TConst x, TConst y | TPointer x, TPointer y | TRef x, TRef y => CType_eqb x y
  | _, _ => false
  end.

(** [const char*] *)
Definition TCStr : CType := TPointer (TConst TChar).

(** The helpers of [core/metaprogramming.h] with their standard meaning:
    each strips one top-level layer when it is there. *)
Definition RemoveReference (t : CType) : CType :=
  match t with TRef x => x | _ => t end.
Definition RemoveConst (t : CType) : CType :=
  match t with TConst x => x | _ => t end.
Definition RemovePointer (t : CType) : CType :=
  match t with TPointer x => x | _ => t end.
Definition RemoveCVR (t : CType) : CType := RemoveConst (RemoveReference t).

(** [_getVariantType]: the non-template overloads first, then the
    [T*] template, then the catch-all [T] template. *)
Definition _getVariantType (t : CType) : Variant.Type_ :=
  match t with
  | TVoid => Variant.VOID
  | TBool => Variant.BOOL
  | TI32 => Variant.I32
  | TU32 => Variant.U32
  | TFloat => Variant.FLOAT
  | TPointer (TConst TChar) => Variant.CSTR
  | TEntityPtr => Variant.ENTITY
  | TEntityRef => Variant.ENTITY
  | TVec2 => Variant.VEC2
  | TVec3 => Variant.VEC3
  | TVec4 => Variant.VEC4
  | TPath => Variant.CSTR
  | TColor => Variant.COLOR
  | TDVec3 => Variant.DVEC3
  | TQuat => Variant.QUAT
  | TPointer _ => Variant.PTR
  | _ => Variant.PTR
  end.

Definition getVariantType (t : CType) : Variant.Type_ :=
  _getVariantType (RemoveCVR t).

(** The parameter type of the [operator =] that takes [x]. *)
Definition param_type (x : Assignable) : CType :=
  match x with
  | A_bool _ => TBool
  | A_i32 _ => TI32
  | A_u32 _ => TU32
  | A_float _ => TFloat
  | A_Path _ => TRef (TConst TPath)
  | A_cstr _ => TCStr
  | A_EntityPtr _ => TEntityPtr
  | A_Vec2 _ => TVec2
  | A_Vec3 _ => TVec3
  | A_Vec4 _ => TVec4
  | A_DVec3 _ => TRef (TConst TDVec3)
  | A_ptr _ => TPointer TVoid
  | A_Color _ => TColor
  | A_Quat _ => TRef (TConst TQuat)
  end.

Record TypeDescriptor := {
  td_type : Variant.Type_;
  type_name : string;
  is_const : bool;
  is_reference : bool;
  is_pointer : bool;
  size : u32
}.

(** What the compiler supplies to [toTypeDescriptor]: [sizeof] and the
    normalized type name that [getTypeName] cuts out of the function
    signature macro. *)
Record Toolchain := {
  sizeof : CType -> u32;
  getTypeName : CType -> string
}.

Definition toTypeDescriptor (tc : Toolchain) (T : CType) : TypeDescriptor :=
  {| type_name := getTypeName tc (RemoveCVR (RemovePointer T));
     td_type := getVariantType T;
     is_const := negb (CType_eqb T (RemoveConst T));
     is_reference := negb (CType_eqb T (RemoveReference T));
     is_pointer := negb (CType_eqb T (RemovePointer T));
     size := if CType_eqb T TVoid then 0 else sizeof tc T |}.

(** The last element of the [expand] arrays: [Variant::Type::VOID]
    initializes the first field, the others are zeroed. *)
Definition void_sentinel : TypeDescriptor :=
  {| td_type := Variant.VOID; type_name := EmptyString; is_const := false;
     is_reference := false; is_pointer := false; size := 0 |}.

(** [expand[i]] for the parameter pack [Args]. *)
Definition expand (tc : Toolchain) (Args : list CType) : list TypeDescriptor :=
  map (toTypeDescriptor tc) Args ++ [void_sentinel].

(** [ArgToTypeDescriptor<F>::get(i)] for a method type [F] with
    parameters [Args].  The array has
    [length Args + 1] elements; the default below is never reached by the
    callers in this file, which index below [length Args]. *)
Definition ArgToTypeDescriptor_get (tc : Toolchain) (Args : list CType) (i : nat)
  : TypeDescriptor :=
  nth i (expand tc Args) void_sentinel.

(* ------------------------------------------------------------------ *)
(** ** Unpacking variants: [fromVariant] *)

(** Direct reads of single union members. *)
Definition member_b (v : Variant) := match data v with U_b x => Some x | _ => None end.
Definition member_i (v : Variant) := match data v with U_i x => Some x | _ => None end.
Definition member_u (v : Variant) := match data v with U_u x => Some x | _ => None end.
Definition member_f (v : Variant) := match data v with U_f x => Some x | _ => None end.
Definition member_s (v : Variant) := match data v with U_s x => Some x | _ => None end.
Definition member_e (v : Variant) := match data v with U_e x => Some x | _ => None end.
Definition member_v2 (v : Variant) := match data v with U_v2 x => Some x | _ => None end.
Definition member_v3 (v : Variant) := match data v with U_v3 x => Some x | _ => None end.
Definition member_v4 (v : Variant) := match data v with U_v4 x => Some x | _ => None end.
Definition member_dv3 (v : Variant) := match data v with U_dv3 x => Some x | _ => None end.
Definition member_ptr (v : Variant) := match data v with U_ptr x => Some x | _ => None end.
Definition member_color (v : Variant) := match data v with U_color x => Some x | _ => None end.
Definition member_quat (v : Variant) := match data v with U_quat x => Some x | _ => None end.

(** An argument as the bound method receives it. *)
Inductive ArgValue :=
| V_bool (v : bool)
| V_float (v : float)
| V_cstr (v : ptr)
| V_Path (from : ptr)
| V_i32 (v : i32)
| V_u32 (v : u32)
| V_Color (v : Color)
| V_Vec2 (v : Vec2)
| V_Vec3 (v : Vec3)
| V_Vec4 (v : Vec4)
| V_Quat (v : Quat)
| V_DVec3 (v : DVec3)
| V_EntityPtr (v : EntityPtr)
| V_EntityRef (v : EntityRef)
| V_pointer (v : ptr)
| V_reference (target : ptr).

(** [fromVariant(i, args, VariantTag<T>{})]: the overload is picked by
    [T], never by the variant's own tag; it indexes the span and reads one
    member. *)
Definition fromVariant (i : nat) (args : list Variant) (T : CType) : option ArgValue :=
  match nth_error args i with
  | None => None
  | Some a =>
      match T with
      | TBool => option_map V_bool (member_b a)
      | TFloat => option_map V_float (member_f a)
      | TPointer (TConst TChar) => option_map V_cstr (member_s a)
      | TPath => option_map V_Path (member_s a)
      | TI32 => option_map V_i32 (member_i a)
      | TU32 => option_map V_u32 (member_u a)
      | TColor => option_map V_Color (member_color a)
      | TVec2 => option_map V_Vec2 (member_v2 a)
      | TVec3 => option_map V_Vec3 (member_v3 a)
      | TVec4 => option_map V_Vec4 (member_v4 a)
      | TQuat => option_map V_Quat (member_quat a)
      | TDVec3 => option_map V_DVec3 (member_dv3 a)
      | TEntityPtr => option_map V_EntityPtr (member_e a)
      | TEntityRef => option_map (fun e => V_EntityRef (EntityRef_of e)) (member_e a)
      | TPointer _ => option_map V_pointer (member_ptr a)
      | _ => option_map V_reference (member_ptr a)
      end
  end.

(** The pack expansion [fromVariant(I, args, VariantTag<RemoveCVR<Args>>{})...]
    over the indices [i, i+1, ...]. *)
Fixpoint unpack (i : nat) (Args : list CType) (args : list Variant)
  : option (list ArgValue) :=
  match Args with
  | [] => Some []
  | A :: rest =>
      match fromVariant i args (RemoveCVR A), unpack (S i) rest args with
      | Some v, Some vs => Some (v :: vs)
      | _, _ => None
      end
  end.

(** [memcpy(dst, src, n)] on byte lists. *)
Definition memcpy (dst src : list u8) (n : nat) : list u8 :=
  firstn n src ++ skipn n dst.

(* ------------------------------------------------------------------ *)
(** ** Delegates *)

(** Modelled from the spec: [DelegateList] and its [bindRaw] come from
    core/delegate_list.h, which the header only includes.  A list keeps
    its delegates in binding order and [bindRaw] attaches one more. *)
Record Delegate := { m_object_ptr : ptr; m_stub : ptr }.
Definition DelegateList := list Delegate.
Definition bindRaw (l : DelegateList) (obj : ptr) (stub : ptr) : DelegateList :=
  l ++ [{| m_object_ptr := obj; m_stub := stub |}].

Section Reflection.

(** The state of the object a bound method runs on: the module behind an
    [IModule*], or the instance behind [void* obj]. *)
Context {World : Type}.
Variable tc : Toolchain.

(* ------------------------------------------------------------------ *)
(** ** FunctionBase and Function *)

(** The virtual interface. *)
Record FunctionBase := {
  getArgCount : u32;
  getReturnType : TypeDescriptor;
  getArgType : Z -> TypeDescriptor;
  invoke : World -> list u8 -> list Variant -> option (World * list u8);
  getDelegateStub : ptr;
  fn_name : string
}.

(** A method pointer [R (C::* )(Args...)]: its signature and what it does
    to the instance.  The result is handed back as the bytes of its
    object representation (none for [void]). *)
Record Method := {
  m_R : CType;
  m_Args : list CType;
  m_call : World -> list ArgValue -> World * list u8;
  m_stub_addr : ptr
}.

(** [VariantCaller<F>::call]. *)
Definition VariantCaller_call (F : Method) (inst : World) (ret_mem : list u8)
    (args : list Variant) : option (World * list u8) :=
  match unpack 0 (m_Args F) args with
  | None => None
  | Some actual =>
      if CType_eqb (m_R F) TVoid then
        let (inst', _) := m_call F inst actual in
        Some (inst', ret_mem)
      else
        let (inst', v) := m_call F inst actual in
        let sizeof_v := sizeof tc (RemoveCVR (m_R F)) in
        if Z.of_nat (List.length ret_mem) =? sizeof_v
        then Some (inst', memcpy ret_mem v (Z.to_nat sizeof_v))
        else Some (inst', ret_mem)
  end.

(** [Function<function>] seen through [FunctionBase].  [getArgType] is
    meant for indices from 0 up to the argument count. *)
Definition Function (function : Method) (name : string) : FunctionBase :=
  {| getArgCount := Z.of_nat (List.length (m_Args function));
     getReturnType := toTypeDescriptor tc (m_R function);
     getArgType := fun i => ArgToTypeDescriptor_get tc (m_Args function) (Z.to_nat i);
     invoke := VariantCaller_call function;
     getDelegateStub := m_stub_addr function;
     fn_name := name |}.

(* ------------------------------------------------------------------ *)
(** ** Events *)

(** [Event<DelegateList<void(Args...)>& (C::* )()>].  The accessor
    [function] yields the delegate list of the object; [bind] below takes
    and returns that list. *)
Record Event := {
  ev_Args : list CType;
  ev_name : string
}.

Definition Event_getArgCount (ev : Event) : u32 := Z.of_nat (List.length (ev_Args ev)).

Definition Event_getArgType (ev : Event) (i : Z) : TypeDescriptor :=
  nth (Z.to_nat i) (expand tc (ev_Args ev)) void_sentinel.

(** The [for] loop of [bind]: [n] iterations are left, the next index is
    [i]; [false] is the early [return false]. *)
Fixpoint bind_check (ev : Event) (fn : FunctionBase) (i : u32) (n : nat) : bool :=
  match n with
  | O => true
  | S n' =>
      if negb (Variant.Type_eqb
                 (td_type (getArgType fn i))
                 (td_type (ArgToTypeDescriptor_get tc (ev_Args ev) (Z.to_nat i))))
      then false
      else bind_check ev fn (i + 1) n'
  end.

(** [Event::bind(object, fn_object, fn)] on the delegate list
    [(s->*function)()]. *)
Definition bind (ev : Event) (delegates : DelegateList) (fn_object : ptr)
    (fn : FunctionBase) : bool * DelegateList :=
  if negb (getArgCount fn =? Z.of_nat (List.length (ev_Args ev))) then (false, delegates)
  else if negb (bind_check ev fn 0 (Z.to_nat (getArgCount fn))) then (false, delegates)
  else (true, bindRaw delegates fn_object (getDelegateStub fn)).

(** What [bind] is compared with: the counts are equal and the tags of the
    descriptors agree at every position. *)
Definition signature_agrees (ev : Event) (fn : FunctionBase) : Prop :=
  getArgCount fn = Event_getArgCount ev /\
  forall i, 0 <= i < getArgCount fn ->
    td_type (getArgType fn i) = td_type (Event_getArgType ev i).

End Reflection.

(* ------------------------------------------------------------------ *)
(** ** The property model *)

(** The value types [IPropertyVisitor] has a [visit] overload for. *)
Inductive PropKind :=
| K_float | K_int | K_u32 | K_EntityPtr | K_Vec2 | K_Vec3 | K_IVec3
| K_Vec4 | K_Path | K_bool | K_cstr.

Definition val (k : PropKind) : Type :=
  match k with
  | K_float => float
  | K_int => i32
  | K_u32 => u32
  | K_EntityPtr => EntityPtr
  | K_Vec2 => Vec2
  | K_Vec3 => Vec3
  | K_IVec3 => IVec3
  | K_Vec4 => Vec4
  | K_Path => Path
  | K_bool => bool
  | K_cstr => ptr
  end.

Definition PropKind_eq_dec (a b : PropKind) : {a = b} + {a <> b}.
Proof. decide equality. Defined.

(** The implicit conversion [EntityRef -> EntityPtr]. *)
Definition EntityPtr_of (e : EntityRef) : EntityPtr := {| ep_index := er_index e |}.

Section Properties.

Context {World : Type}.

(** [ComponentUID]: the module pointer stands for the module's state. *)
Record ComponentUID := {
  cuid_module : World;
  cuid_type : ComponentType;
  cuid_entity : EntityPtr
}.

(** [Property<T>].  [setter] is [None] for [nullptr].  The builder assigns
    [getter] on every path, so it is a plain function.  The back pointer
    [cmp] of [PropertyBase] is left out. *)
Record Property (T : Type) := {
  name : string;
  attributes : list IAttribute;
  setter : option (World -> EntityRef -> u32 -> T -> World);
  getter : World -> EntityRef -> u32 -> T
}.
Arguments name {T}.
Arguments attributes {T}.
Arguments setter {T}.
Arguments getter {T}.

Definition get {T} (p : Property T) (cmp : ComponentUID) (idx : u32) : T :=
  getter p (cuid_module cmp) (EntityRef_of (cuid_entity cmp)) idx.

(** [set] calls through [setter] without looking at it: with a null
    setter the call has no defined behaviour. *)
Definition set {T} (p : Property T) (cmp : ComponentUID) (idx : u32) (v : T)
  : option World :=
  match setter p with
  | Some f => Some (f (cuid_module cmp) (EntityRef_of (cuid_entity cmp)) idx v)
  | None => None
  end.

Definition isReadonly {T} (p : Property T) : bool :=
  match setter p with
  | None => true
  | Some _ => false
  end.

(** The three concrete kinds of [PropertyBase]. *)
#[warnings="-register-all"]
Inductive PropertyBase :=
| PropertyOf (k : PropKind) (p : Property (val k))
| ArrayProperty (a_name : string) (a_attributes : list IAttribute)
    (children : list PropertyBase)
    (counter : World -> EntityRef -> u32)
    (adder remover : World -> EntityRef -> u32 -> World)
| BlobProperty (b_name : string) (b_attributes : list IAttribute)
    (b_getter : World -> EntityRef -> u32 -> list u8 -> list u8)
    (b_setter : World -> EntityRef -> u32 -> list u8 -> World).

Definition is_array (p : PropertyBase) : bool :=
  match p with ArrayProperty _ _ _ _ _ _ => true | _ => false end.

Definition children_of (p : PropertyBase) : list PropertyBase :=
  match p with ArrayProperty _ _ c _ _ _ => c | _ => [] end.

(** [getAttribute]: the range-for over [prop.attributes]. *)
Fixpoint getAttribute_loop (attrs : list IAttribute) (type : IAttribute.Type_)
  : option IAttribute :=
  match attrs with
  | [] => None
  | attr :: rest =>
      if IAttribute.Type_eqb (getType attr) type then Some attr
      else getAttribute_loop rest type
  end.

Definition getAttribute {T} (prop : Property T) (type : IAttribute.Type_)
  : option IAttribute :=
  getAttribute_loop (attributes prop) type.

(* ------------------------------------------------------------------ *)
(** ** Visitors *)

(** [IPropertyVisitor] over a visitor object with state [St].  The eleven
    [Property<T>] overloads are one handler indexed by the value type.
    The [ArrayProperty] handler also receives [prop.visitChildren( *this)]
    as a state transformer, to call or not. *)
Record IPropertyVisitor (St : Type) := {
  visit_Property : forall k, Property (val k) -> St -> St;
  visit_ArrayProperty : PropertyBase -> (St -> St) -> St -> St;
  visit_BlobProperty : PropertyBase -> St -> St
}.
Arguments visit_Property {St}.
Arguments visit_ArrayProperty {St}.
Arguments visit_BlobProperty {St}.

(** [IEmptyPropertyVisitor]: every overload has an empty body. *)
Definition IEmptyPropertyVisitor (St : Type) : IPropertyVisitor St :=
  {| visit_Property := fun _ _ st => st;
     visit_ArrayProperty := fun _ _ st => st;
     visit_BlobProperty := fun _ st => st |}.

(** [PropertyBase::visit], the double dispatch.  [Property<T>::visit] is
    in the header.  Modelled from the spec: [ArrayProperty::visit],
    [BlobProperty::visit] and [ArrayProperty::visitChildren] are only
    declared there; each [visit] calls back the overload for its own kind
    and [visitChildren] visits the children in order. *)
Fixpoint PropertyBase_visit {St} (visitor : IPropertyVisitor St) (p : PropertyBase)
  : St -> St :=
  match p with
  | PropertyOf k prop => visit_Property visitor k prop
  | ArrayProperty _ _ children _ _ _ =>
      visit_ArrayProperty visitor p
        ((fix visitChildren (l : list PropertyBase) : St -> St :=
            match l with
            | [] => fun st => st
            | c :: rest => fun st => visitChildren rest (PropertyBase_visit visitor c st)
            end) children)
  | BlobProperty _ _ _ _ => visit_BlobProperty visitor p
  end.

(** The same loop as a function of its own, for a list of properties. *)
Fixpoint visit_all {St} (visitor : IPropertyVisitor St) (l : list PropertyBase)
  : St -> St :=
  match l with
  | [] => fun st => st
  | c :: rest => fun st => visit_all visitor rest (PropertyBase_visit visitor c st)
  end.

(* ------------------------------------------------------------------ *)
(** ** Components and modules *)

Record ComponentBase := {
  icon : string;
  cmp_name : string;
  label : string;
  creator : World -> EntityRef -> World;
  destroyer : World -> EntityRef -> World;
  component_type : ComponentType;
  props : list PropertyBase;
  functions : list (@FunctionBase World)
}.

(** Modelled from the spec: [ComponentBase::visit] is only declared in the
    header; it visits every property of the component, in registration
    order. *)
Definition ComponentBase_visit {St} (cmp : ComponentBase)
    (visitor : IPropertyVisitor St) : St -> St :=
  visit_all visitor (props cmp).

(** [Module], without the [next] link of the registry. *)
Record Module := {
  mod_functions : list (@FunctionBase World);
  events : list Event;
  cmps : list ComponentBase;
  mod_name : string
}.

End Properties.

Arguments name {World T}.
Arguments attributes {World T}.
Arguments setter {World T}.
Arguments getter {World T}.
Arguments visit_Property {World St}.
Arguments visit_ArrayProperty {World St}.
Arguments visit_BlobProperty {World St}.

(* ------------------------------------------------------------------ *)
(** ** The registration builder *)

(** An enum type, known by its underlying integer type. *)
Record EnumT := { enum_bits : Z; enum_signed : bool }.

(** The result type [T] of a getter handed to [prop]: a value type the
    visitor knows, or an enum.  An enum value is its underlying integer. *)
Inductive ResultType :=
| R_plain (k : PropKind)
| R_enum (en : EnumT).

Definition rval (T : ResultType) : Type :=
  match T with
  | R_plain k => val k
  | R_enum _ => Z
  end.

Definition is_enum (T : ResultType) : bool :=
  match T with R_enum _ => true | R_plain _ => false end.

(** [Pick<__is_enum(T), i32, T>::Type] *)
Definition Backing (T : ResultType) : PropKind :=
  match T with
  | R_enum _ => K_int
  | R_plain k => k
  end.

(** [static_cast<T>(value)] from [i32] to the enum, and
    [static_cast<i32>(x)] back. *)
Definition enum_of_i32 (en : EnumT) (value : i32) : Z :=
  wrap (enum_bits en) (enum_signed en) value.
Definition i32_of_enum (x : Z) : i32 := to_i32 x.

(** The values of the enum type itself. *)
Definition enum_value (en : EnumT) (x : Z) : Prop :=
  if enum_signed en
  then - 2 ^ (enum_bits en - 1) <= x < 2 ^ (enum_bits en - 1)
  else 0 <= x < 2 ^ enum_bits en.

Module builder.
Section WithWorld.

Context {World : Type}.
Variable tc : Toolchain.

(** Member-function pointers passed as template arguments: the branches
    on [ArgsCount] tell the two shapes of each apart. *)
Inductive GetterPtr (T : Type) :=
| Getter1 (g : World -> EntityRef -> T)
| Getter2 (g : World -> EntityRef -> u32 -> T).

Inductive SetterPtr (T : Type) :=
| Setter2 (s : World -> EntityRef -> T -> World)
| Setter3 (s : World -> EntityRef -> u32 -> T -> World).

Arguments Getter1 {T}.
Arguments Getter2 {T}.
Arguments Setter2 {T}.
Arguments Setter3 {T}.

(** [(static_cast<C*>(module)->*Getter)(e)] or [...(e, idx)] *)
Definition call_Getter {T} (Getter : GetterPtr T) (module : World) (e : EntityRef)
    (idx : u32) : T :=
  match Getter with
  | Getter1 g => g module e
  | Getter2 g => g module e idx
  end.

(** [(static_cast<C*>(module)->*Setter)(e, v)] or [...(e, idx, v)] *)
Definition call_Setter {T} (Setter : SetterPtr T) (module : World) (e : EntityRef)
    (idx : u32) (v : T) : World :=
  match Setter with
  | Setter2 s => s module e v
  | Setter3 s => s module e idx v
  end.

(** The lambda stored in [p->setter] when a setter is given. *)
Definition setter_lambda (T : ResultType)
  : SetterPtr (rval T) -> World -> EntityRef -> u32 -> val (Backing T) -> World :=
  match T with
  | R_enum en => fun Setter module e idx value =>
      call_Setter Setter module e idx (enum_of_i32 en value)
  | R_plain k => fun Setter module e idx value =>
      call_Setter Setter module e idx value
  end.

(** The lambda stored in [p->getter]. *)
Definition getter_lambda (T : ResultType)
  : GetterPtr (rval T) -> World -> EntityRef -> u32 -> val (Backing T) :=
  match T with
  | R_enum en => fun Getter module e idx =>
      i32_of_enum (call_Getter Getter module e idx)
  | R_plain k => fun Getter module e idx =>
      call_Getter Getter module e idx
  end.

(** The object [prop<Getter, Setter>(name)] allocates and fills in. *)
Definition new_Property (T : ResultType) (Getter : GetterPtr (rval T))
    (Setter : option (SetterPtr (rval T))) (name : string)
  : Property (World := World) (val (Backing T)) :=
  {| setter := match Setter with
               | None => None
               | Some ptr_to_setter => Some (setter_lambda T ptr_to_setter)
               end;
     getter := getter_lambda T Getter;
     name := name;
     attributes := [] |}.

(** The object [var_prop<Getter, PropGetter>(name)] fills in: [Getter]
    yields the sub-object, the member pointer [PropGetter] is a pair of
    a read and a write of one of its fields. *)
Definition new_var_Property {C : Type} (k : PropKind)
    (Getter : World -> EntityRef -> C) (put : World -> EntityRef -> C -> World)
    (PropGetter : C -> val k) (PropSetter : C -> val k -> C) (name : string)
  : Property (World := World) (val k) :=
  {| setter := Some (fun module e _ value =>
                 put module e (PropSetter (Getter module e) value));
     getter := fun module e _ => PropGetter (Getter module e);
     name := name;
     attributes := [] |}.

(** The builder's fields.  [array] and [last_prop] point into the tree
    under [module]; a pointer is the path of indices that leads there. *)
Record t := {
  module : Module (World := World);
  array : option (list nat);
  last_prop : option (list nat)
}.

Definition with_module (b : t) (m : Module (World := World)) : t :=
  {| module := m; array := array b; last_prop := last_prop b |}.

(** [a.back()] replaced by [g (a.back())]. *)
Fixpoint update_back {A} (g : A -> A) (l : list A) : list A :=
  match l with
  | [] => []
  | [x] => [g x]
  | x :: rest => x :: update_back g rest
  end.

Definition push_function (f : FunctionBase) (c : ComponentBase (World := World))
  : ComponentBase :=
  {| icon := icon c; cmp_name := cmp_name c; label := label c;
     creator := creator c; destroyer := destroyer c;
     component_type := component_type c; props := props c;
     functions := functions c ++ [f] |}.

(** Modelled from the spec: [registerCmp] is only declared in the header;
    it opens the component, which from then on is [module->cmps.back()]. *)
Definition registerCmp (b : t) (c : ComponentBase) : t :=
  with_module b
    {| mod_functions := mod_functions (module b); events := events (module b);
       cmps := cmps (module b) ++ [c]; mod_name := mod_name (module b) |}.

(** [cmp<Creator, Destroyer>(name, label)]; [getComponentType] belongs to
    the registry. *)
Definition cmp (getComponentType : string -> ComponentType)
    (Creator Destroyer : World -> EntityRef -> World) (name label : string) (b : t) : t :=
  registerCmp b
    {| icon := EmptyString; cmp_name := name; label := label;
       creator := Creator; destroyer := Destroyer;
       component_type := getComponentType name;
       props := []; functions := [] |}.

(** [a.back()], when there is one. *)
Fixpoint back {A} (l : list A) : option A :=
  match l with
  | [] => None
  | [x] => Some x
  | _ :: rest => back rest
  end.

Definition push_prop (p : PropertyBase) (c : ComponentBase (World := World))
  : ComponentBase :=
  {| icon := icon c; cmp_name := cmp_name c; label := label c;
     creator := creator c; destroyer := destroyer c;
     component_type := component_type c; props := props c ++ [p];
     functions := functions c |}.

(** [begin_array<Counter, Adder, Remover>(name)]: the new array, still
    without children, goes onto the [props] of the open component itself,
    whatever [array] pointed to before.  Without a component there is no
    [cmps.back()]. *)
Definition begin_array (Counter : World -> EntityRef -> u32)
    (Adder Remover : World -> EntityRef -> u32 -> World) (name : string) (b : t)
  : option t :=
  match back (cmps (module b)) with
  | None => None
  | Some open_cmp =>
      let prop := ArrayProperty name [] [] Counter Adder Remover in
      let here := [Nat.pred (List.length (cmps (module b)));
                   List.length (props open_cmp)] in
      Some {| module :=
                {| mod_functions := mod_functions (module b);
                   events := events (module b);
                   cmps := update_back (push_prop prop) (cmps (module b));
                   mod_name := mod_name (module b) |};
              array := Some here;
              last_prop := Some here |}
  end.

(** [prop<Getter, Setter>(name)]; [addProp] is only declared in the
    header and is taken as given. *)
Definition prop (addProp : t -> PropertyBase (World := World) -> t) (T : ResultType)
    (Getter : GetterPtr (rval T)) (Setter : option (SetterPtr (rval T)))
    (name : string) (b : t) : t :=
  addProp b (PropertyOf (Backing T) (new_Property T Getter Setter name)).

(** [event<F>(name)], [F] being an accessor of a
    [DelegateList<void(Args...)>]. *)
Definition event (Args : list CType) (name : string) (b : t) : t :=
  let f := {| ev_Args := Args; ev_name := name |} in
  with_module b
    {| mod_functions := mod_functions (module b);
       events := events (module b) ++ [f];
       cmps := cmps (module b); mod_name := mod_name (module b) |}.

(** [function<F>(name)] *)
Definition function (F : Method) (name : string) (b : t) : t :=
  let f := Function tc F name in
  match cmps (module b) with
  | [] =>
      with_module b
        {| mod_functions := mod_functions (module b) ++ [f];
           events := events (module b);
           cmps := cmps (module b); mod_name := mod_name (module b) |}
  | _ :: _ =>
      with_module b
        {| mod_functions := mod_functions (module b);
           events := events (module b);
           cmps := update_back (push_function f) (cmps (module b));
           mod_name := mod_name (module b) |}
  end.

End WithWorld.

Arguments Getter1 {World T}.
Arguments Getter2 {World T}.
Arguments Setter2 {World T}.
Arguments Setter3 {World T}.

End builder.

(* ------------------------------------------------------------------ *)
(** ** Walking the properties of a component *)

Section Walkers.

Context {World : Type}.

(** [getComponent] is the registry lookup, declared in the header and
    defined with the registry; [None] is its null result. *)
Variable getComponent : ComponentType -> option (ComponentBase (World := World)).

(** The visitor object inside [getPropertyValue<T>]: the two fields that
    change.  [cmp] and [prop_name] are set once before the walk. *)
Record Finder (k : PropKind) := {
  value : val k;
  found : bool
}.
Arguments value {k}.
Arguments found {k}.

(** It derives from [IEmptyPropertyVisitor] and overrides the overload for
    [Property<T>] alone.  [equalStrings] of core/string.h compares the two
    names character by character. *)
Definition finder_visitor (k : PropKind) (cmp : ComponentUID (World := World))
    (prop_name : string) : IPropertyVisitor (Finder k) :=
  {| visit_Property := fun k' =>
       match PropKind_eq_dec k' k with
       | left e =>
           match e in _ = k0 return Property (val k') -> Finder k0 -> Finder k0 with
           | eq_refl => fun prop st =>
               if String.eqb (name prop) prop_name
               then {| found := true; value := get prop cmp u32_max |}
               else st
           end
       | right _ => fun _ st => st
       end;
     visit_ArrayProperty := visit_ArrayProperty (IEmptyPropertyVisitor (Finder k));
     visit_BlobProperty := visit_BlobProperty (IEmptyPropertyVisitor (Finder k)) |}.

(** [getPropertyValue<T>(module, e, cmp_type, prop_name, out)]: the pair is
    the returned flag and the value left in [out].  [value_init] is [T{}].
    [cmp_desc] is used without a null test, so a lookup miss leaves the
    call without defined behaviour. *)
Definition getPropertyValue (k : PropKind) (value_init : val k) (module : World)
    (e : EntityRef) (cmp_type : ComponentType) (prop_name : string)
  : option (bool * val k) :=
  let visitor0 := {| value := value_init; found := false |} in
  let cmp := {| cuid_module := module; cuid_type := cmp_type;
                cuid_entity := EntityPtr_of e |} in
  match getComponent cmp_type with
  | None => None
  | Some cmp_desc =>
      let visitor := ComponentBase_visit cmp_desc (finder_visitor k cmp prop_name) visitor0 in
      Some (found visitor, value visitor)
  end.

(** The [Helper] of [forEachProperty]: its [parent] field, and the state
    [S] the callable [f] works on. *)
Record Helper (S : Type) := {
  parent : option (PropertyBase (World := World));
  env : S
}.
Arguments parent {S}.
Arguments env {S}.

Section ForEach.

Variable S : Type.
(** [f(prop, parent)] *)
Variable f : PropertyBase (World := World) -> option (PropertyBase (World := World)) -> S -> S.

(** [f(prop, parent);] *)
Definition call_f (prop : PropertyBase) (h : Helper S) : Helper S :=
  {| parent := parent h; env := f prop (parent h) (env h) |}.

Definition set_parent (p : option PropertyBase) (h : Helper S) : Helper S :=
  {| parent := p; env := env h |}.

Definition Helper_visitor : IPropertyVisitor (Helper S) :=
  {| visit_Property := fun k prop h => call_f (PropertyOf k prop) h;
     visit_ArrayProperty := fun prop visitChildren h =>
       let h1 := call_f prop h in
       let h2 := set_parent (Some prop) h1 in
       let h3 := visitChildren h2 in
       set_parent None h3;
     visit_BlobProperty := fun prop h => call_f prop h |}.

(** [forEachProperty(cmp_type, f)]: the state of [f] before and after. *)
Definition forEachProperty (cmp_type : ComponentType) (s : S) : S :=
  let h := {| parent := None; env := s |} in
  match getComponent cmp_type with
  | Some cmp => env (ComponentBase_visit cmp Helper_visitor h)
  | None => s
  end.

End ForEach.

End Walkers.

Arguments value {k}.
Arguments found {k}.
Arguments parent {World S}.
Arguments env {World S}.

(** The callable that records every call it receives, oldest first. *)
Definition Call {World : Type} : Type :=
  (PropertyBase (World := World) * option (PropertyBase (World := World)))%type.

Definition record_call {World : Type} (prop : PropertyBase (World := World))
    (parent : option PropertyBase) (log : list Call) : list Call :=
  log ++ [(prop, parent)].

(* ------------------------------------------------------------------ *)
(** ** Reference behaviour *)

Section Expectations.

Context {World : Type}.

(** The calls a walk is expected to make for one top-level property: the
    property itself with no parent, then its children with the property
    as parent. *)
Definition calls_for (p : PropertyBase (World := World)) : list Call :=
  (p, None) :: map (fun c => (c, Some p)) (children_of p).

Definition expected_calls (l : list (PropertyBase (World := World))) : list Call :=
  flat_map calls_for l.

(** [N + sum k_i]: the top-level properties plus the children of those
    that are arrays. *)
Definition expected_count (l : list (PropertyBase (World := World))) : nat :=
  (List.length l + list_sum (map (fun p => List.length (children_of p)) l))%nat.

(** The schema is two levels deep: no child of an array is an array.
    [begin_array] pushes every array onto the component's own [props]. *)
Definition flat (l : list (PropertyBase (World := World))) : bool :=
  forallb (fun p => forallb (fun c => negb (is_array c)) (children_of p)) l.

(** A call made for a top-level property: its parent argument is null. *)
Definition no_parent (c : Call (World := World)) : bool :=
  match snd c with None => true | Some _ => false end.

(** Feeding a list of calls to [f], oldest first. *)
Definition replay {S : Type} (f : PropertyBase (World := World) -> option PropertyBase -> S -> S)
    (calls : list Call) (s : S) : S :=
  fold_left (fun acc c => f (fst c) (snd c) acc) calls s.

(** Every property registered for a component: the top-level ones and the
    children of its arrays. *)
Definition registered_properties (c : ComponentBase (World := World))
  : list PropertyBase :=
  flat_map (fun p => p :: children_of p) (props c).

(** [p] seen as a [Property<T>] for the value type [k], if it is one. *)
Definition as_Property (k : PropKind) (p : PropertyBase (World := World))
  : option (Property (val k)) :=
  match p with
  | PropertyOf k' prop =>
      match PropKind_eq_dec k' k with
      | left e =>
          match e in _ = k0 return option (Property (val k0)) with
          | eq_refl => Some prop
          end
      | right _ => None
      end
  | _ => None
  end.

(** The last top-level [Property<T>] called [prop_name], if any. *)
Fixpoint last_match (k : PropKind) (prop_name : string)
    (l : list (PropertyBase (World := World))) (sofar : option (Property (val k)))
  : option (Property (val k)) :=
  match l with
  | [] => sofar
  | p :: rest =>
      match as_Property k p with
      | Some prop =>
          if String.eqb (name prop) prop_name
          then last_match k prop_name rest (Some prop)
          else last_match k prop_name rest sofar
      | None => last_match k prop_name rest sofar
      end
  end.

(** What the walk of [getPropertyValue] leaves in its visitor: the value
    of the property found, or the visitor as it started. *)
Definition finder_result {k : PropKind} (cmp : ComponentUID (World := World))
    (o : option (Property (val k))) (st : Finder k) : Finder k :=
  match o with
  | Some prop => {| found := true; value := get prop cmp u32_max |}
  | None => st
  end.

End Expectations.

(* ------------------------------------------------------------------ *)
(** ** Sample data for the concrete checks *)

(** A 64-bit toolchain. *)
Fixpoint sample_sizeof (t : CType) : u32 :=
  match t with
  | TVoid => 0
  | TBool | TChar => 1
  | TI32 | TU32 | TFloat | TEntityPtr | TEntityRef | TColor => 4
  | TVec2 => 8
  | TVec3 => 12
  | TVec4 | TQuat => 16
  | TDVec3 => 24
  | TPath => 264
  | TNamed _ => 4
  | TConst x => sample_sizeof x
  | TPointer _ => 8
  | TRef x => sample_sizeof x
  end.

Fixpoint sample_type_name (t : CType) : string :=
  match t with
  | TVoid => "void" | TBool => "bool" | TI32 => "int" | TU32 => "unsigned int"
  | TFloat => "float" | TChar => "char"
  | TEntityPtr => "EntityPtr" | TEntityRef => "EntityRef"
  | TVec2 => "Vec2" | TVec3 => "Vec3" | TVec4 => "Vec4"
  | TPath => "Path" | TColor => "Color" | TDVec3 => "DVec3" | TQuat => "Quat"
  | TNamed n => n
  | TConst x => sample_type_name x
  | TPointer x => sample_type_name x
  | TRef x => sample_type_name x
  end.

Definition sample_tc : Toolchain :=
  {| sizeof := sample_sizeof; getTypeName := sample_type_name |}.

(** Sample modules keep one integer per entity; the state is the list of
    (entity index, value) pairs, newest first. *)
Definition Store := list (Z * Z).

Fixpoint store_get (w : Store) (e : Z) : Z :=
  match w with
  | [] => 0
  | (e', v) :: rest => if e' =? e then v else store_get rest e
  end.

Definition store_set (w : Store) (e : Z) (v : Z) : Store := (e, v) :: w.

(** [void onHit(const char* what)] and [void log(Path p)]: two signatures
    whose only parameter has tag CSTR. *)
Definition sample_event : Event := {| ev_Args := [TCStr]; ev_name := "hit" |}.


(** [i32 bump(i32 by)]: adds to entity 0 and returns the new total as
    four little-endian bytes. *)
Definition le_bytes4 (v : Z) : list u8 :=
  [v mod 256; (v / 256) mod 256; (v / 65536) mod 256; (v / 16777216) mod 256].

Definition sample_bump : Method (World := Store) :=
  {| m_R := TI32; m_Args := [TI32];
     m_call := fun w actual =>
       match actual with
       | [V_i32 by_] =>
           let total := store_get w 0 + by_ in
           (store_set w 0 total, le_bytes4 total)
       | _ => (w, le_bytes4 0)
       end;
     m_stub_addr := 8192 |}.

(** A read-only [float] property, a writable [i32] property and an array
    with two children. *)
Definition sample_distance : Property (World := Store) (val K_float) :=
  builder.new_Property (R_plain K_float)
    (builder.Getter1 (fun w e => store_get w (er_index e))) None "distance".

Definition sample_count : Property (World := Store) (val K_int) :=
  builder.new_Property (R_plain K_int)
    (builder.Getter1 (fun w e => store_get w (er_index e)))
    (Some (builder.Setter2 (fun w e v => store_set w (er_index e) v))) "count".

Definition sample_lods : PropertyBase (World := Store) :=
  ArrayProperty "lods" []
    [PropertyOf K_float sample_distance; PropertyOf K_int sample_count]
    (fun _ _ => 2) (fun w _ _ => w) (fun w _ _ => w).

Definition sample_cmp : ComponentBase (World := Store) :=
  {| icon := EmptyString; cmp_name := "model"; label := "Model";
     creator := fun w _ => w; destroyer := fun w _ => w;
     component_type := 7;
     props := [PropertyOf K_int sample_count; sample_lods];
     functions := [] |}.

Definition sample_registry (t : ComponentType) : option (ComponentBase (World := Store)) :=
  if t =? 7 then Some sample_cmp else None.

(** An enum with underlying type [u8], and a property over it. *)
Definition sample_enum : EnumT := {| enum_bits := 8; enum_signed := false |}.

Definition sample_mode : Property (World := Store) (val K_int) :=
  builder.new_Property (R_enum sample_enum)
    (builder.Getter1 (fun w e => store_get w (er_index e)))
    (Some (builder.Setter2 (fun w e v => store_set w (er_index e) v))) "mode".

Definition sample_uid (w : Store) : ComponentUID (World := Store) :=
  {| cuid_module := w; cuid_type := 7; cuid_entity := {| ep_index := 3 |} |}.

(** A builder with no component yet, and one with a component open. *)
Definition sample_builder0 : builder.t (World := Store) :=
  {| builder.module := {| mod_functions := []; events := []; cmps := [];
                          mod_name := "renderer" |};
     builder.array := None; builder.last_prop := None |}.

Definition sample_builder1 : builder.t (World := Store) :=
  {| builder.module := {| mod_functions := []; events := []; cmps := [sample_cmp];
                          mod_name := "renderer" |};
     builder.array := None; builder.last_prop := None |}.

(* ------------------------------------------------------------------ *)
(** ** Type names *)

(** [detail::FRONT_SIZE] and [detail::BACK_SIZE] of the branch without
    clang on Windows: [sizeof] of the literal minus the terminator. *)
Definition FRONT_SIZE : Z :=
  Z.of_nat (String.length "Lumix::reflection::detail::GetTypeNameHelper<").
Definition BACK_SIZE : Z :=
  Z.of_nat (String.length ">::GetTypeName").

(** [GetTypeNameHelper<T>::GetTypeName()] in the two branches that cut by
    size; [fn] is what the compiler puts into the function-name macro,
    [sizeof(fn)] counts its terminator, and the arithmetic is [size_t]'s.
    The view starts [FRONT_SIZE] characters in and is [size - 1] long. *)
Definition GetTypeName (fn : string) : string :=
  let sizeof_fn := Z.of_nat (String.length fn) + 1 in
  let size := (sizeof_fn - FRONT_SIZE - BACK_SIZE) mod 2 ^ 64 in
  substring (Z.to_nat FRONT_SIZE) (Z.to_nat ((size - 1) mod 2 ^ 64)) fn.

(* ------------------------------------------------------------------ *)
(** ** Boxing event arguments *)

(** [toVariant] takes [value] by value.  For every type but [Path] the
    parameter is the argument again; for a [Path] it is a copy with
    characters of its own, at [copy], and the copy is gone when
    [toVariant] has returned. *)
Definition by_value (copy : ptr) (value : Assignable) : Assignable :=
  match value with
  | A_Path p => A_Path {| path_chars := path_chars p; path_c_str := copy |}
  | _ => value
  end.

(** [Event::toVariant(value)]: a fresh [Variant], then [v = value]. *)
Definition toVariant (copy : ptr) (value : Assignable) : Variant :=
  assign Variant_new (by_value copy value).

(** The array [a] that the lambda of [Event::bind(object, callback)]
    builds from the arguments of a call and passes to
    [callback->invoke]. *)
Definition Callback_args (copy : ptr) (args : list Assignable) : list Variant :=
  map (toVariant copy) args.

Definition is_Path (x : Assignable) : bool :=
  match x with A_Path _ => true | _ => false end.

(** The same value as the overload of [fromVariant] for its type hands it
    to a bound method. *)
Definition unboxed (x : Assignable) : ArgValue :=
  match x with
  | A_bool v => V_bool v
  | A_i32 v => V_i32 v
  | A_u32 v => V_u32 v
  | A_float v => V_float v
  | A_Path p => V_Path (path_c_str p)
  | A_cstr v => V_cstr v
  | A_EntityPtr v => V_EntityPtr v
  | A_Vec2 v => V_Vec2 v
  | A_Vec3 v => V_Vec3 v
  | A_Vec4 v => V_Vec4 v
  | A_DVec3 v => V_DVec3 v
  | A_ptr v => V_pointer v
  | A_Color c => V_Color c
  | A_Quat q => V_Quat q
  end.

(** The variants a program can hold: made by the constructor and changed
    by assignment only. *)
Inductive constructed : Variant -> Prop :=
| constructed_new : constructed Variant_new
| constructed_assign v x : constructed v -> constructed (assign v x).

(** A declared type without [const] or [&] on the outside. *)
Definition unqualified (t : CType) : bool :=
  match t with
  | TConst _ | TRef _ => false
  | _ => true
  end.

(* ------------------------------------------------------------------ *)
(** ** StructVar *)

Section StructVars.

Context {C : Type}.
Variable tc : Toolchain.

(** A pointer to a data member of [C], the template argument [Getter]:
    the member's type, and the bytes of the member inside an instance,
    read and replaced. *)
Record MemberPtr := {
  mp_T : CType;
  mp_read : C -> list u8;
  mp_write : C -> list u8 -> C
}.

(** [StructVar<Getter>::set(obj, mem)] *)
Definition StructVar_set (Getter : MemberPtr) (inst : C) (mem : list u8) : bool * C :=
  let v := mp_read Getter inst in
  let sizeof_v := sizeof tc (mp_T Getter) in
  if negb (sizeof_v =? Z.of_nat (List.length mem)) then (false, inst)
  else (true, mp_write Getter inst (memcpy v mem (Z.to_nat sizeof_v))).

(** [StructVar<Getter>::get(obj, mem)]: the flag and the contents of
    [mem] afterwards. *)
Definition StructVar_get (Getter : MemberPtr) (inst : C) (mem : list u8)
  : bool * list u8 :=
  let v := mp_read Getter inst in
  let sizeof_v := sizeof tc (mp_T Getter) in
  if negb (sizeof_v =? Z.of_nat (List.length mem)) then (false, mem)
  else (true, memcpy mem v (Z.to_nat sizeof_v)).

(** [StructVarBase::get<T>(obj)]: [res] starts with whatever bytes the
    stack holds, [uninitialized]; the flag of the virtual [get] is
    dropped. *)
Definition StructVarBase_get (Getter : MemberPtr) (uninitialized : list u8) (inst : C)
  : list u8 :=
  snd (StructVar_get Getter inst uninitialized).

(** [StructVarBase::set<T>(obj, val)], [val] given by its bytes; the flag
    of the virtual [set] is dropped. *)
Definition StructVarBase_set (Getter : MemberPtr) (inst : C) (val : list u8) : C :=
  snd (StructVar_set Getter inst val).

(** The member pointer behaves like a field of [sizeof(T)] bytes. *)
Definition member_ok (Getter : MemberPtr) : Prop :=
  (forall inst, Z.of_nat (List.length (mp_read Getter inst)) = sizeof tc (mp_T Getter)) /\
  (forall inst bytes,
      Z.of_nat (List.length bytes) = sizeof tc (mp_T Getter) ->
      mp_read Getter (mp_write Getter inst bytes) = bytes).

End StructVars.

Arguments MemberPtr : clear implicits.

(* ------------------------------------------------------------------ *)
(** ** More of the builder: attributes *)

Section Attributes.

Context {World : Type}.

(** [p->attributes.push(a)] for a [Property<T>]. *)
Definition Property_push_attribute {T} (a : IAttribute) (p : Property (World := World) T)
  : Property T :=
  {| name := name p; attributes := attributes p ++ [a];
     setter := setter p; getter := getter p |}.

(** [last_prop->attributes.push(a)], whatever the kind of the property. *)
Definition push_attribute (a : IAttribute) (p : PropertyBase (World := World))
  : PropertyBase :=
  match p with
  | PropertyOf k prop => PropertyOf k (Property_push_attribute a prop)
  | ArrayProperty n attrs children c ad r =>
      ArrayProperty n (attrs ++ [a]) children c ad r
  | BlobProperty n attrs g s => BlobProperty n (attrs ++ [a]) g s
  end.

Definition attributes_of (p : PropertyBase (World := World)) : list IAttribute :=
  match p with
  | PropertyOf _ prop => attributes prop
  | ArrayProperty _ attrs _ _ _ _ => attrs
  | BlobProperty _ attrs _ _ => attrs
  end.

(** The element at index [n] replaced by [g] of it; [None] when the list
    is too short or [g] fails. *)
Fixpoint update_nth {A} (n : nat) (g : A -> option A) (l : list A) : option (list A) :=
  match l, n with
  | [], _ => None
  | x :: rest, O => option_map (fun y => y :: rest) (g x)
  | x :: rest, S n' => option_map (cons x) (update_nth n' g rest)
  end.

(** Following a pointer into the properties of a component: one index for
    a top-level property, two for a child of an array. *)
Definition update_at (path : list nat) (g : PropertyBase (World := World) -> PropertyBase)
    (l : list PropertyBase) : option (list PropertyBase) :=
  match path with
  | [i] => update_nth i (fun p => Some (g p)) l
  | [i; j] =>
      update_nth i
        (fun p =>
           match p with
           | ArrayProperty n attrs children c ad r =>
               option_map (fun children' => ArrayProperty n attrs children' c ad r)
                 (update_nth j (fun q => Some (g q)) children)
           | _ => None
           end) l
  | _ => None
  end.

Definition lookup_at (path : list nat) (l : list (PropertyBase (World := World)))
  : option PropertyBase :=
  match path with
  | [i] => nth_error l i
  | [i; j] =>
      match nth_error l i with
      | Some p => nth_error (children_of p) j
      | None => None
      end
  | _ => None
  end.

Definition with_props (c : ComponentBase (World := World)) (l : list PropertyBase)
  : ComponentBase :=
  {| icon := icon c; cmp_name := cmp_name c; label := label c;
     creator := creator c; destroyer := destroyer c;
     component_type := component_type c; props := l;
     functions := functions c |}.

(** [attribute<T>()], [a] being the new attribute object.  [last_prop] is
    dereferenced as it is: null before the first property and wherever it
    was reset. *)
Definition attribute (a : IAttribute) (b : builder.t (World := World))
  : option builder.t :=
  match builder.last_prop b with
  | Some (ci :: path) =>
      match update_nth ci
              (fun c => option_map (with_props c) (update_at path (push_attribute a) (props c)))
              (cmps (builder.module b)) with
      | Some cmps' =>
          Some {| builder.module :=
                    {| mod_functions := mod_functions (builder.module b);
                       events := events (builder.module b);
                       cmps := cmps';
                       mod_name := mod_name (builder.module b) |};
                  builder.array := builder.array b;
                  builder.last_prop := builder.last_prop b |}
      | None => None
      end
  | _ => None
  end.

(** The property [last_prop] points to. *)
Definition last_prop_target (b : builder.t (World := World)) : option PropertyBase :=
  match builder.last_prop b with
  | Some (ci :: path) =>
      match nth_error (cmps (builder.module b)) ci with
      | Some c => lookup_at path (props c)
      | None => None
      end
  | _ => None
  end.

(** Every property below a property, itself first, in the order a walk
    that descends into every array meets them. *)
Fixpoint preorder (p : PropertyBase (World := World)) : list PropertyBase :=
  p :: match p with
       | ArrayProperty _ _ children _ _ _ =>
           (fix all (l : list PropertyBase) : list PropertyBase :=
              match l with
              | [] => []
              | c :: rest => preorder c ++ all rest
              end) children
       | _ => []
       end.

Definition preorder_all (l : list (PropertyBase (World := World))) : list PropertyBase :=
  flat_map preorder l.

(** [p] is a [Property<T>] for the value type [k]. *)
Definition is_Property_of (k : PropKind) (p : PropertyBase (World := World)) : bool :=
  match as_Property k p with Some _ => true | None => false end.

End Attributes.

(** A sample struct with one four-byte member at the front. *)
Definition sample_member : MemberPtr (list u8) :=
  {| mp_T := TI32;
     mp_read := fun inst => firstn 4 (inst ++ [0; 0; 0; 0]);
     mp_write := fun inst bytes => firstn 4 (bytes ++ [0; 0; 0; 0]) ++ skipn 4 inst |}.

(** A schema three levels deep: an array between two plain children of
    another array. *)
Definition sample_inner : PropertyBase (World := Store) :=
  ArrayProperty "keys" [] [PropertyOf K_float sample_distance]
    (fun _ _ => 1) (fun w _ _ => w) (fun w _ _ => w).

Definition sample_outer : PropertyBase (World := Store) :=
  ArrayProperty "tracks" []
    ([PropertyOf K_int sample_count] ++ sample_inner :: [PropertyOf K_int sample_mode])
    (fun _ _ => 1) (fun w _ _ => w) (fun w _ _ => w).

Definition sample_nested_cmp : ComponentBase (World := Store) :=
  {| icon := EmptyString; cmp_name := "animation"; label := "Animation";
     creator := fun w _ => w; destroyer := fun w _ => w;
     component_type := 9;
     props := [sample_outer];
     functions := [] |}.

Definition sample_nested_registry (t : ComponentType)
  : option (ComponentBase (World := Store)) :=
  if t =? 9 then Some sample_nested_cmp else None.

(** The sample component with everything but its [Property<int>] entries
    taken out. *)
Definition sample_cmp_ints : ComponentBase (World := Store) :=
  with_props sample_cmp (filter (is_Property_of K_int) (props sample_cmp)).

Definition sample_registry_ints (t : ComponentType)
  : option (ComponentBase (World := Store)) :=
  if t =? 7 then Some sample_cmp_ints else None.

(* ================================================================== *)
(** * Properties *)

(** ** Tags decide equality *)

Lemma attr_Type_eqb_eq (a b : IAttribute.Type_) :
  IAttribute.Type_eqb a b = true <-> a = b.
Proof. destruct a, b; simpl; split; intro H; try reflexivity; discriminate H. Qed.

Lemma variant_Type_eqb_eq (a b : Variant.Type_) :
  Variant.Type_eqb a b = true <-> a = b.
Proof. destruct a, b; simpl; split; intro H; try reflexivity; discriminate H. Qed.

Lemma variant_Type_eqb_neq (a b : Variant.Type_) :
  Variant.Type_eqb a b = false <-> a <> b.
Proof.
  split.
  - intros H E. apply variant_Type_eqb_eq in E. congruence.
  - intro N. destruct (Variant.Type_eqb a b) eqn:E; [|reflexivity].
    apply variant_Type_eqb_eq in E. contradiction.
Qed.

(* ------------------------------------------------------------------ *)
(** ** getAttribute *)

Lemma getAttribute_loop_some attrs type attr :
  getAttribute_loop attrs type = Some attr ->
  exists before after,
    attrs = before ++ attr :: after /\
    getType attr = type /\
    forall a, In a before -> getType a <> type.
Proof.
  induction attrs as [|x rest IH]; simpl; [discriminate|].
  destruct (IAttribute.Type_eqb (getType x) type) eqn:E.
  - intro H. injection H as <-.
    exists [], rest. apply attr_Type_eqb_eq in E.
    repeat split; [exact E | intros a []].
  - intro H. destruct (IH H) as (before & after & -> & Ht & Hb).
    exists (x :: before), after. repeat split; [exact Ht|].
    intros a [<- | Ha]; [|exact (Hb a Ha)].
    intro C. apply attr_Type_eqb_eq in C. congruence.
Qed.

Lemma getAttribute_loop_none attrs type :
  getAttribute_loop attrs type = None ->
  forall a, In a attrs -> getType a <> type.
Proof.
  induction attrs as [|x rest IH]; simpl; [intros _ a []|].
  destruct (IAttribute.Type_eqb (getType x) type) eqn:E; [discriminate|].
  intros H a [<- | Ha]; [|exact (IH H a Ha)].
  intro C. apply attr_Type_eqb_eq in C. congruence.
Qed.

(** C10. [getAttribute(prop, type)] returns the first attribute of the
    property's attribute list, in registration order, whose [getType()] is
    the requested kind: everything before it in the list has another
    kind.  It returns null exactly when no attribute of the list has the
    requested kind. *)
Theorem getAttribute_first_of_kind :
  forall (World T : Type) (prop : Property (World := World) T) (type : IAttribute.Type_),
    match getAttribute prop type with
    | Some attr =>
        exists before after,
          attributes prop = before ++ attr :: after /\
          getType attr = type /\
          forall a, In a before -> getType a <> type
    | None => forall a, In a (attributes prop) -> getType a <> type
    end.
Proof.
  intros World T prop type. unfold getAttribute.
  destruct (getAttribute_loop (attributes prop) type) as [attr|] eqn:E.
  - exact (getAttribute_loop_some _ _ _ E).
  - exact (getAttribute_loop_none _ _ E).
Qed.

(* ------------------------------------------------------------------ *)
(** ** Variant *)

(** C4, as stated, fails for a [Path]: after [v = path] the tag is CSTR
    and the member it names, [s], holds the pointer [path.c_str()], which
    is not the assigned [Path]. *)
Lemma Variant_assign_Path_keeps_pointer_only :
  let path := {| path_chars := "models/cube.fbx"; path_c_str := 65536 |} in
  type (assign Variant_new (A_Path path)) = Variant.CSTR /\
  read_tagged (assign Variant_new (A_Path path)) = Some (A_cstr 65536) /\
  read_tagged (assign Variant_new (A_Path path)) <> Some (A_Path path).
Proof. simpl. repeat split; discriminate. Qed.

(** C4, amended.  After any of the assignment operators, [type] is the tag
    that [getVariantType] gives for the operator's parameter type, the
    member named by the tag is the active one, and reading it yields the
    assigned value unchanged; the one exception is [Path], for which the
    member [s] holds [v.c_str()]. *)
Theorem Variant_assign_tag_and_member :
  forall (v : Variant) (x : Assignable),
    type (assign v x) = getVariantType (param_type x) /\
    read_tagged (assign v x) = Some (stored x) /\
    ((forall p, x <> A_Path p) -> read_tagged (assign v x) = Some x) /\
    (forall p, x = A_Path p -> read_tagged (assign v x) = Some (A_cstr (path_c_str p))).
Proof.
  intros v x. repeat split.
  - destruct x; reflexivity.
  - destruct x; reflexivity.
  - intro H. destruct x; try reflexivity. exfalso. exact (H v0 eq_refl).
  - intros p ->. reflexivity.
Qed.

(* ------------------------------------------------------------------ *)
(** ** Event::bind *)

Section BindFacts.

Context {World : Type}.
Variable tc : Toolchain.

(** The loop answers [true] exactly when the tags agree at each of the
    [n] indices from [i] on. *)
Lemma bind_check_spec (ev : Event) (fn : FunctionBase (World := World)) :
  forall n i,
    bind_check tc ev fn i n = true <->
    forall j, i <= j < i + Z.of_nat n ->
      td_type (getArgType fn j) = td_type (Event_getArgType tc ev j).
Proof.
  induction n as [|n IH]; intro i; simpl bind_check.
  - split; [intros _ j Hj; lia | reflexivity].
  - destruct (Variant.Type_eqb (td_type (getArgType fn i))
                (td_type (ArgToTypeDescriptor_get tc (ev_Args ev) (Z.to_nat i)))) eqn:E;
      simpl negb; cbv iota.
    + apply variant_Type_eqb_eq in E. rewrite IH. split.
      * intros H j Hj. destruct (Z.eq_dec j i) as [->|N]; [exact E|].
        apply H. lia.
      * intros H j Hj. apply H. lia.
    + apply variant_Type_eqb_neq in E. split; [discriminate|].
      intro H. exfalso. apply E. apply (H i). lia.
Qed.

Lemma bind_accepts (ev : Event) (delegates : DelegateList) (fn_object : ptr)
    (fn : FunctionBase (World := World)) :
  signature_agrees tc ev fn ->
  bind tc ev delegates fn_object fn
  = (true, bindRaw delegates fn_object (getDelegateStub fn)).
Proof.
  intros [Hc Ht]. unfold bind, Event_getArgCount in *.
  rewrite Hc, Z.eqb_refl. simpl negb. cbv iota.
  assert (B : bind_check tc ev fn 0 (Z.to_nat (Z.of_nat (List.length (ev_Args ev)))) = true).
  { apply bind_check_spec. intros j Hj. apply Ht. lia. }
  rewrite B. reflexivity.
Qed.

Lemma bind_rejects (ev : Event) (delegates : DelegateList) (fn_object : ptr)
    (fn : FunctionBase (World := World)) :
  ~ signature_agrees tc ev fn ->
  bind tc ev delegates fn_object fn = (false, delegates).
Proof.
  intro N. unfold bind.
  destruct (getArgCount fn =? Z.of_nat (List.length (ev_Args ev))) eqn:Ec;
    simpl negb; cbv iota; [|reflexivity].
  destruct (bind_check tc ev fn 0 (Z.to_nat (getArgCount fn))) eqn:B;
    simpl negb; cbv iota; [|reflexivity].
  exfalso. apply N. apply Z.eqb_eq in Ec. split; [exact Ec|].
  intros i Hi. apply (proj1 (bind_check_spec ev fn _ 0) B). lia.
Qed.

End BindFacts.



(* ------------------------------------------------------------------ *)
(** ** Function::invoke *)

Lemma memcpy_whole (dst src : list u8) :
  List.length dst = List.length src ->
  memcpy dst src (List.length src) = src.
Proof.
  intro H. unfold memcpy.
  rewrite firstn_all, <- H, skipn_all. apply app_nil_r.
Qed.

(** C2. For a bound method with a non-void result type, and arguments the
    call can unpack, [invoke] always runs the method (the instance ends in
    the state the method leaves it in) and returns normally.  When
    [ret_mem.length()] equals the size of the result, [ret_mem] ends up
    holding exactly the result's bytes; when the sizes differ, [ret_mem]
    is left as it was, and nothing reports the mismatch. *)
Theorem Function_invoke_copies_iff_size_matches :
  forall (World : Type) (tc : Toolchain) (F : Method (World := World)) (name : string)
         (inst : World) (ret_mem : list u8) (args : list Variant)
         (actual : list ArgValue) (inst' : World) (v : list u8),
    m_R F <> TVoid ->
    unpack 0 (m_Args F) args = Some actual ->
    m_call F inst actual = (inst', v) ->
    Z.of_nat (List.length v) = sizeof tc (RemoveCVR (m_R F)) ->
    (Z.of_nat (List.length ret_mem) = sizeof tc (RemoveCVR (m_R F)) ->
       invoke (Function tc F name) inst ret_mem args = Some (inst', v)) /\
    (Z.of_nat (List.length ret_mem) <> sizeof tc (RemoveCVR (m_R F)) ->
       invoke (Function tc F name) inst ret_mem args = Some (inst', ret_mem)).
Proof.
  intros World tc F name inst ret_mem args actual inst' v HR Hargs Hcall Hsize.
  assert (NV : CType_eqb (m_R F) TVoid = false).
  { destruct (m_R F); try reflexivity. contradiction. }
  simpl invoke. unfold VariantCaller_call. rewrite Hargs, NV, Hcall.
  split; intro H.
  - rewrite (proj2 (Z.eqb_eq _ _) H).
    rewrite <- Hsize, Nat2Z.id. rewrite memcpy_whole; [reflexivity|lia].
  - rewrite (proj2 (Z.eqb_neq _ _) H). reflexivity.
Qed.

(** The theorem at [i32 bump(i32)], once with four bytes of room and once
    with three. *)
Lemma Function_invoke_sample :
  invoke (Function sample_tc sample_bump "bump") [] [9; 9; 9; 9]
    [assign Variant_new (A_i32 5)] = Some ([(0, 5)], [5; 0; 0; 0]) /\
  invoke (Function sample_tc sample_bump "bump") [] [9; 9; 9]
    [assign Variant_new (A_i32 5)] = Some ([(0, 5)], [9; 9; 9]).
Proof.
  split.
  - apply (Function_invoke_copies_iff_size_matches Store sample_tc sample_bump "bump"
             [] [9; 9; 9; 9] [assign Variant_new (A_i32 5)] [V_i32 5]
             [(0, 5)] [5; 0; 0; 0]); try reflexivity.
    discriminate.
  - apply (Function_invoke_copies_iff_size_matches Store sample_tc sample_bump "bump"
             [] [9; 9; 9] [assign Variant_new (A_i32 5)] [V_i32 5]
             [(0, 5)] [5; 0; 0; 0]); try reflexivity; discriminate.
Defined.

(* ------------------------------------------------------------------ *)
(** ** forEachProperty *)

Section WalkFacts.

Context {World : Type}.

Lemma visit_array_unfold {St} (visitor : IPropertyVisitor (World := World) St)
    n a children c ad r :
  PropertyBase_visit visitor (ArrayProperty n a children c ad r)
  = visit_ArrayProperty visitor (ArrayProperty n a children c ad r)
      (visit_all visitor children).
Proof.
  simpl. f_equal.
  induction children as [|x rest IH]; simpl; [reflexivity|].
  rewrite IH. reflexivity.
Qed.

Lemma replay_app {S} (f : PropertyBase (World := World) -> option PropertyBase -> S -> S)
    (a b : list Call) (s : S) :
  replay f (a ++ b) s = replay f b (replay f a s).
Proof. unfold replay. apply fold_left_app. Qed.

Variable S : Type.
Variable f : PropertyBase (World := World) -> option (PropertyBase (World := World)) -> S -> S.

(** A property that is not an array costs one call, under the parent
    that is current. *)
Lemma visit_leaf (p : PropertyBase) (h : Helper S) :
  is_array p = false ->
  PropertyBase_visit (Helper_visitor S f) p h = call_f S f p h.
Proof. destruct p; simpl; [reflexivity | discriminate | reflexivity]. Qed.

Lemma visit_leaves (l : list PropertyBase) :
  forallb (fun c => negb (is_array c)) l = true ->
  forall h : Helper S,
    visit_all (Helper_visitor S f) l h
    = {| parent := parent h;
         env := replay f (map (fun c => (c, parent h)) l) (env h) |}.
Proof.
  induction l as [|c rest IH]; simpl; intros Hl h.
  - destruct h; reflexivity.
  - apply andb_true_iff in Hl. destruct Hl as [Hc Hr].
    apply negb_true_iff in Hc.
    rewrite (visit_leaf c h Hc), (IH Hr). reflexivity.
Qed.

(** One top-level property, visited with no parent set. *)
Lemma visit_top (p : PropertyBase) (s : S) :
  forallb (fun c => negb (is_array c)) (children_of p) = true ->
  PropertyBase_visit (Helper_visitor S f) p {| parent := None; env := s |}
  = {| parent := None; env := replay f (calls_for p) s |}.
Proof.
  intro Hc. destruct p as [k prop | n a children c ad r | n a g st].
  - reflexivity.
  - rewrite visit_array_unfold. simpl visit_ArrayProperty.
    simpl in Hc. rewrite (visit_leaves children Hc). reflexivity.
  - reflexivity.
Qed.

Lemma visit_flat (l : list PropertyBase) :
  flat l = true ->
  forall s : S,
    visit_all (Helper_visitor S f) l {| parent := None; env := s |}
    = {| parent := None; env := replay f (expected_calls l) s |}.
Proof.
  induction l as [|p rest IH]; simpl; intros Hl s; [reflexivity|].
  apply andb_true_iff in Hl. destruct Hl as [Hp Hr].
  rewrite (visit_top p s Hp), (IH Hr).
  unfold expected_calls. simpl flat_map. rewrite replay_app. reflexivity.
Qed.

End WalkFacts.

Lemma replay_record_call {World : Type} (calls log : list (Call (World := World))) :
  replay record_call calls log = log ++ calls.
Proof.
  unfold replay. revert log.
  induction calls as [|c rest IH]; intro log; simpl.
  - symmetry. apply app_nil_r.
  - rewrite IH. unfold record_call.
    destruct c. simpl. rewrite <- app_assoc. reflexivity.
Qed.

Lemma expected_calls_length {World : Type} (l : list (PropertyBase (World := World))) :
  List.length (expected_calls l) = expected_count l.
Proof.
  unfold expected_count. induction l as [|p rest IH]; [reflexivity|].
  unfold expected_calls in *. simpl.
  rewrite length_app, length_map, IH. lia.
Qed.

Lemma expected_calls_top_level {World : Type} (l : list (PropertyBase (World := World))) :
  List.length (filter no_parent (expected_calls l)) = List.length l.
Proof.
  induction l as [|p rest IH]; [reflexivity|].
  unfold expected_calls in *.
  change (flat_map calls_for (p :: rest)) with (calls_for p ++ flat_map calls_for rest).
  rewrite filter_app, length_app, IH.
  assert (E : filter no_parent (calls_for p) = [(p, None)]).
  { unfold calls_for. simpl. f_equal.
    induction (children_of p) as [|c cs IHc]; [reflexivity | exact IHc]. }
  rewrite E. reflexivity.
Qed.

Lemma expected_calls_parents {World : Type} (l : list (PropertyBase (World := World))) :
  forall c a, In (c, Some a) (expected_calls l) ->
    In a l /\ In c (children_of a) /\ is_array a = true.
Proof.
  intros c a H. unfold expected_calls in H. apply in_flat_map in H.
  destruct H as (p & Hp & Hin). unfold calls_for in Hin.
  destruct Hin as [Heq | Hin]; [discriminate Heq|].
  apply in_map_iff in Hin. destruct Hin as (c' & Heq & Hc').
  injection Heq as -> ->. repeat split; [exact Hp | exact Hc' |].
  destruct a; simpl in Hc'; try contradiction. reflexivity.
Qed.

(** C3. For a registered component whose schema is two levels deep (the
    shape the builder produces), [forEachProperty(cmp_type, f)] makes
    exactly the calls [f(p, null)] for each top-level property [p], each
    followed, when [p] is an array, by [f(c, p)] for its children [c] in
    order.  That is [N + sum k_i] calls; [N] of them have a null parent
    (the top-level ones, also those after an array), and a call has a
    non-null parent only for a child, the parent being its array. *)
Theorem forEachProperty_calls :
  forall (World : Type)
         (getComponent : ComponentType -> option (ComponentBase (World := World)))
         (cmp_type : ComponentType) (cmp : ComponentBase),
    getComponent cmp_type = Some cmp ->
    flat (props cmp) = true ->
    (forall (S : Type) (f : PropertyBase -> option PropertyBase -> S -> S) (s : S),
        forEachProperty getComponent S f cmp_type s
        = replay f (expected_calls (props cmp)) s) /\
    forEachProperty getComponent _ record_call cmp_type []
    = expected_calls (props cmp) /\
    List.length (forEachProperty getComponent _ record_call cmp_type [])
    = expected_count (props cmp) /\
    List.length (filter no_parent (forEachProperty getComponent _ record_call cmp_type []))
    = List.length (props cmp) /\
    (forall c a,
        In (c, Some a) (forEachProperty getComponent _ record_call cmp_type []) ->
        In a (props cmp) /\ In c (children_of a) /\ is_array a = true).
Proof.
  intros World getComponent cmp_type cmp Hget Hflat.
  assert (G : forall (S : Type) (f : PropertyBase -> option PropertyBase -> S -> S) (s : S),
             forEachProperty getComponent S f cmp_type s
             = replay f (expected_calls (props cmp)) s).
  { intros S f s. unfold forEachProperty, ComponentBase_visit.
    rewrite Hget, (visit_flat S f (props cmp) Hflat). reflexivity. }
  assert (L : forEachProperty getComponent _ record_call cmp_type []
              = expected_calls (props cmp)).
  { rewrite G. apply replay_record_call. }
  split; [exact G|]. split; [exact L|]. rewrite L.
  split; [apply expected_calls_length|].
  split; [apply expected_calls_top_level | apply expected_calls_parents].
Qed.

(** The theorem at the sample component: one plain property and one
    array with two children make four calls. *)
Lemma forEachProperty_calls_sample :
  List.length (forEachProperty sample_registry _ record_call 7 []) = 4%nat.
Proof.
  exact (proj1 (proj2 (proj2
    (forEachProperty_calls Store sample_registry 7 sample_cmp eq_refl eq_refl)))).
Defined.

(** C8. When [getComponent] returns null for the component type,
    [forEachProperty] returns without calling [f]: whatever [f] works on
    is as before, and the recording callable has recorded no call. *)
Theorem forEachProperty_lookup_miss :
  forall (World : Type)
         (getComponent : ComponentType -> option (ComponentBase (World := World)))
         (cmp_type : ComponentType),
    getComponent cmp_type = None ->
    (forall (S : Type) (f : PropertyBase -> option PropertyBase -> S -> S) (s : S),
        forEachProperty getComponent S f cmp_type s = s) /\
    forEachProperty getComponent _ record_call cmp_type [] = [].
Proof.
  intros World getComponent cmp_type Hget.
  unfold forEachProperty. rewrite Hget. split; reflexivity.
Qed.

Lemma forEachProperty_lookup_miss_sample :
  forEachProperty sample_registry _ record_call 8 [] = [].
Proof.
  exact (proj2 (forEachProperty_lookup_miss Store sample_registry 8 eq_refl)).
Defined.

(* ------------------------------------------------------------------ *)
(** ** getPropertyValue *)

Section FinderFacts.

Context {World : Type}.
Variable k : PropKind.
Variable cmp : ComponentUID (World := World).
Variable prop_name : string.

Lemma as_Property_same (prop : Property (World := World) (val k)) :
  as_Property k (PropertyOf k prop) = Some prop.
Proof. unfold as_Property. destruct k; reflexivity. Qed.

Lemma as_Property_inv (p : PropertyBase (World := World)) (prop : Property (World := World) (val k)) :
  as_Property k p = Some prop -> p = PropertyOf k prop.
Proof.
  destruct p as [k' q | |]; simpl; try discriminate.
  destruct (PropKind_eq_dec k' k) as [e|n]; [|discriminate].
  destruct e. intro H. injection H as <-. reflexivity.
Qed.

(** What the visitor does with one property. *)
Lemma finder_visit_one (p : PropertyBase (World := World)) (st : Finder k) :
  PropertyBase_visit (finder_visitor k cmp prop_name) p st
  = match as_Property k p with
    | Some prop =>
        if String.eqb (name prop) prop_name
        then {| found := true; value := get prop cmp u32_max |}
        else st
    | None => st
    end.
Proof.
  destruct p as [k' q | n a children c ad r | n a g s]; simpl; try reflexivity.
  destruct (PropKind_eq_dec k' k) as [e|ne]; [|reflexivity].
  destruct e. reflexivity.
Qed.

Lemma finder_visit_all (l : list (PropertyBase (World := World))) :
  forall (sofar : option (Property (World := World) (val k))) (st : Finder k),
    visit_all (finder_visitor k cmp prop_name) l (finder_result cmp sofar st)
    = finder_result cmp (last_match k prop_name l sofar) st.
Proof.
  induction l as [|p rest IH]; intros sofar st; [reflexivity|].
  cbn [visit_all last_match]. rewrite finder_visit_one.
  destruct (as_Property k p) as [prop|]; [|apply IH].
  destruct (String.eqb (name prop) prop_name); [|apply IH].
  apply (IH (Some prop) st).
Qed.

Lemma last_match_none (l : list (PropertyBase (World := World))) :
  forall sofar,
    last_match k prop_name l sofar = None <->
    sofar = None /\
    forall prop, In (PropertyOf k prop) l -> name prop <> prop_name.
Proof.
  induction l as [|p rest IH]; intro sofar; cbn [last_match].
  - split; [intro H; split; [exact H | intros prop []] | intros [H _]; exact H].
  - destruct (as_Property k p) as [q|] eqn:E.
    + apply as_Property_inv in E. subst p.
      destruct (String.eqb (name q) prop_name) eqn:N.
      * rewrite IH. split; [intros [H _]; discriminate H|].
        intros [_ H]. exfalso. apply String.eqb_eq in N.
        exact (H q (or_introl eq_refl) N).
      * rewrite IH. apply String.eqb_neq in N. split; intros [H1 H2]; (split; [exact H1|]).
        -- intros prop [Heq | Hin]; [|exact (H2 prop Hin)].
           injection Heq as Heq.
           apply Eqdep_dec.inj_pair2_eq_dec in Heq; [subst; exact N | exact PropKind_eq_dec].
        -- intros prop Hin. exact (H2 prop (or_intror Hin)).
    + rewrite IH. split; intros [H1 H2]; (split; [exact H1|]).
      * intros prop [Heq | Hin]; [|exact (H2 prop Hin)].
        subst p. rewrite as_Property_same in E. discriminate E.
      * intros prop Hin. exact (H2 prop (or_intror Hin)).
Qed.

Lemma last_match_some (l : list (PropertyBase (World := World))) :
  forall sofar prop,
    last_match k prop_name l sofar = Some prop ->
    (exists before after,
        l = before ++ PropertyOf k prop :: after /\
        name prop = prop_name /\
        forall q, In (PropertyOf k q) after -> name q <> prop_name) \/
    (sofar = Some prop /\
     forall q, In (PropertyOf k q) l -> name q <> prop_name).
Proof.
  induction l as [|p rest IH]; intros sofar prop; cbn [last_match].
  - intro H. right. split; [exact H | intros q []].
  - destruct (as_Property k p) as [q|] eqn:E.
    + apply as_Property_inv in E. subst p.
      destruct (String.eqb (name q) prop_name) eqn:N.
      * intro H. apply String.eqb_eq in N.
        destruct (IH (Some q) prop H) as [(b & a & -> & Hn & Ha) | [Hs Hr]].
        -- left. exists (PropertyOf k q :: b), a. repeat split; assumption.
        -- injection Hs as ->. left. exists [], rest. repeat split; assumption.
      * intro H. apply String.eqb_neq in N.
        destruct (IH sofar prop H) as [(b & a & -> & Hn & Ha) | [Hs Hr]].
        -- left. exists (PropertyOf k q :: b), a. repeat split; assumption.
        -- right. split; [exact Hs|].
           intros q' [Heq | Hin]; [|exact (Hr q' Hin)].
           injection Heq as Heq.
           apply Eqdep_dec.inj_pair2_eq_dec in Heq; [subst; exact N | exact PropKind_eq_dec].
    + intro H.
      destruct (IH sofar prop H) as [(b & a & -> & Hn & Ha) | [Hs Hr]].
      * left. exists (p :: b), a. repeat split; assumption.
      * right. split; [exact Hs|].
        intros q' [Heq | Hin]; [|exact (Hr q' Hin)].
        subst p. rewrite as_Property_same in E. discriminate E.
Qed.

End FinderFacts.

(** C9, as stated, fails for a property registered inside an array: the
    sample component has a [Property<float>] called "distance" among its
    registered properties, as a child of "lods", and
    [getPropertyValue<float>] returns false for it and writes [0.0f]. *)
Lemma getPropertyValue_skips_array_children :
  In (PropertyOf K_float sample_distance) (registered_properties sample_cmp) /\
  name sample_distance = "distance" /\
  getPropertyValue sample_registry K_float 0 [(3, 42)] {| er_index := 3 |} 7 "distance"
  = Some (false, 0).
Proof.
  split; [|split; reflexivity].
  simpl. right. right. left. reflexivity.
Qed.

(** On a lookup miss the null result of [getComponent] is used as it is. *)
Lemma getPropertyValue_lookup_miss :
  forall (World : Type)
         (getComponent : ComponentType -> option (ComponentBase (World := World)))
         (k : PropKind) (value_init : val k) (module : World) (e : EntityRef)
         (cmp_type : ComponentType) (prop_name : string),
    getComponent cmp_type = None ->
    getPropertyValue getComponent k value_init module e cmp_type prop_name = None.
Proof.
  intros World getComponent k value_init module e cmp_type prop_name H.
  unfold getPropertyValue. rewrite H. reflexivity.
Qed.

(** C9, amended.  For a component type that [getComponent] finds,
    [getPropertyValue<T>] looks at the component's top-level properties
    only.  It returns true if and only if one of them is a [Property<T>]
    whose name equals [prop_name].  When it returns false, [out] receives
    the value-initialized [T]; when it returns true, [out] receives what
    [get] of the last such property returns for index [(u32)-1]. *)
Theorem getPropertyValue_top_level :
  forall (World : Type)
         (getComponent : ComponentType -> option (ComponentBase (World := World)))
         (k : PropKind) (value_init : val k) (module : World) (e : EntityRef)
         (cmp_type : ComponentType) (prop_name : string) (cmp_desc : ComponentBase),
    getComponent cmp_type = Some cmp_desc ->
    let cmp := {| cuid_module := module; cuid_type := cmp_type;
                  cuid_entity := EntityPtr_of e |} in
    exists (result : bool) (out : val k),
      getPropertyValue getComponent k value_init module e cmp_type prop_name
      = Some (result, out) /\
      (result = true <->
       exists prop, In (PropertyOf k prop) (props cmp_desc) /\ name prop = prop_name) /\
      (result = false -> out = value_init) /\
      (result = true ->
       exists before prop after,
         props cmp_desc = before ++ PropertyOf k prop :: after /\
         name prop = prop_name /\
         (forall q, In (PropertyOf k q) after -> name q <> prop_name) /\
         out = get prop cmp 4294967295).
Proof.
  intros World getComponent k value_init module e cmp_type prop_name cmp_desc Hget cmp.
  unfold getPropertyValue. rewrite Hget. fold cmp.
  unfold ComponentBase_visit.
  pose proof (finder_visit_all k cmp prop_name (props cmp_desc) None
                {| value := value_init; found := false |}) as W.
  change (finder_result cmp None {| value := value_init; found := false |})
    with {| value := value_init; found := false |} in W.
  rewrite W. clear W.
  destruct (last_match k prop_name (props cmp_desc) None) as [prop|] eqn:L.
  - exists true, (get prop cmp u32_max). cbn [finder_result found value].
    destruct (last_match_some k prop_name _ _ _ L)
      as [(before & after & Hl & Hn & Ha) | [Hs _]]; [|discriminate Hs].
    split; [reflexivity|]. split; [|split; [discriminate|]].
    + split; [intros _ | reflexivity].
      exists prop. split; [|exact Hn]. rewrite Hl. apply in_elt.
    + intros _. exists before, prop, after. repeat split; assumption.
  - exists false, value_init. cbn [finder_result found value].
    apply last_match_none in L. destruct L as [_ Hno].
    split; [reflexivity|]. split; [|split; [reflexivity | discriminate]].
    split; [discriminate|].
    intros (prop & Hin & Hn). exfalso. exact (Hno prop Hin Hn).
Qed.

(** The theorem at the sample component: "count" is a top-level
    [Property<int>] and is found. *)
Lemma getPropertyValue_top_level_sample :
  exists (result : bool) (out : val K_int),
    getPropertyValue sample_registry K_int 0 [(3, 42)] {| er_index := 3 |} 7 "count"
    = Some (result, out).
Proof.
  destruct (getPropertyValue_top_level Store sample_registry K_int 0 [(3, 42)]
              {| er_index := 3 |} 7 "count" sample_cmp eq_refl)
    as (result & out & H & _).
  exists result, out. exact H.
Defined.

(* ------------------------------------------------------------------ *)
(** ** Properties built by the builder *)

(** C5, as stated, fails in its second half: [set] on the read-only
    sample property is neither rejected nor a no-op that returns; it is a
    call through the null [setter]. *)
Lemma Property_set_readonly_calls_null :
  isReadonly sample_distance = true /\
  set sample_distance (sample_uid [(3, 42)]) 0 5 = None /\
  set sample_distance (sample_uid [(3, 42)]) 0 5 <> Some [(3, 42)].
Proof. repeat split. discriminate. Qed.

(** C5, amended.  For the [Property] that [prop<Getter, Setter>] builds,
    [isReadonly()] is true if and only if no setter was supplied, and a
    property from [var_prop] is never read-only.  [set] does not test the
    setter: with a setter it forwards the value to the module's setter,
    and on a read-only property the call it makes has no target. *)
Theorem Property_isReadonly_iff_no_setter :
  forall (World : Type) (T : ResultType) (Getter : builder.GetterPtr (World := World) (rval T))
         (Setter : option (builder.SetterPtr (rval T))) (name : string),
    let p := builder.new_Property T Getter Setter name in
    (isReadonly p = true <-> Setter = None) /\
    (forall cmp idx v,
        set p cmp idx v
        = match Setter with
          | Some s =>
              Some (builder.setter_lambda T s (cuid_module cmp)
                      (EntityRef_of (cuid_entity cmp)) idx v)
          | None => None
          end) /\
    (forall (C : Type) (k : PropKind) (g : World -> EntityRef -> C) put rd wr nm,
        isReadonly (builder.new_var_Property k g put rd wr nm) = false).
Proof.
  intros World T Getter Setter name p. subst p.
  destruct Setter as [s|]; unfold isReadonly, set; simpl.
  - split; [split; discriminate|]. split; reflexivity.
  - split; [split; reflexivity|]. split; reflexivity.
Qed.

(* ------------------------------------------------------------------ *)
(** ** Where the builder files functions and events *)

Lemma update_back_last {A} (g : A -> A) (init : list A) (c : A) :
  builder.update_back g (init ++ [c]) = init ++ [g c].
Proof.
  induction init as [|x rest IH]; [reflexivity|].
  simpl app. cbn [builder.update_back]. rewrite IH.
  destruct rest; reflexivity.
Qed.

(** C6, as stated, fails for events: with a component open, [event]
    still files the event with the module, and the component is as it
    was. *)
Lemma builder_event_goes_to_module :
  List.length (cmps (builder.module sample_builder1)) = 1%nat /\
  events (builder.module (builder.event [TI32] "changed" sample_builder1))
  = [{| ev_Args := [TI32]; ev_name := "changed" |}] /\
  cmps (builder.module (builder.event [TI32] "changed" sample_builder1))
  = cmps (builder.module sample_builder1).
Proof. repeat split. Qed.

(** C6, amended.  [function<F>(name)] files its wrapper with the module
    when no component has been opened, and with the most recently opened
    component otherwise.  [event<F>(name)] files its wrapper with the
    module in every case; a component holds no events. *)
Theorem builder_function_event_placement :
  forall (World : Type) (tc : Toolchain) (b : builder.t (World := World))
         (F : Method) (Args : list CType) (name : string),
    let f := Function tc F name in
    let after_f := builder.module (builder.function tc F name b) in
    let after_e := builder.module (builder.event Args name b) in
    (cmps (builder.module b) = [] ->
       mod_functions after_f = mod_functions (builder.module b) ++ [f] /\
       cmps after_f = []) /\
    (forall init c,
       cmps (builder.module b) = init ++ [c] ->
       cmps after_f = init ++ [builder.push_function f c] /\
       functions (builder.push_function f c) = functions c ++ [f] /\
       mod_functions after_f = mod_functions (builder.module b)) /\
    events after_f = events (builder.module b) /\
    events after_e
    = events (builder.module b) ++ [{| ev_Args := Args; ev_name := name |}] /\
    cmps after_e = cmps (builder.module b) /\
    mod_functions after_e = mod_functions (builder.module b).
Proof.
  intros World tc b F Args name f after_f after_e.
  subst after_f after_e. unfold builder.function, builder.event.
  split; [|split].
  - intro E. rewrite E. simpl. split; reflexivity.
  - intros init c E. fold f.
    destruct (cmps (builder.module b)) as [|x rest] eqn:Ec.
    + destruct init; discriminate E.
    + rewrite E. cbn [cmps mod_functions builder.module builder.with_module].
      rewrite update_back_last. repeat split.
  - destruct (cmps (builder.module b)); repeat split.
Qed.

(* ------------------------------------------------------------------ *)
(** ** Enum properties *)

Lemma pow2_split (bits : Z) :
  0 < bits -> 2 ^ bits = 2 * 2 ^ (bits - 1) /\ 0 < 2 ^ (bits - 1).
Proof.
  intro H. split.
  - replace bits with (Z.succ (bits - 1)) at 1 by lia.
    apply Z.pow_succ_r. lia.
  - apply Z.pow_pos_nonneg; lia.
Qed.





Lemma wrap_range (bits : Z) (signed : bool) (v : Z) :
  0 < bits ->
  if signed then - 2 ^ (bits - 1) <= wrap bits signed v < 2 ^ (bits - 1)
  else 0 <= wrap bits signed v < 2 ^ bits.
Proof.
  intro Hb. destruct (pow2_split bits Hb) as [E P]. unfold wrap.
  assert (R : 0 <= v mod 2 ^ bits < 2 ^ bits) by (apply Z.mod_pos_bound; lia).
  destruct signed; simpl andb.
  - destruct (2 ^ (bits - 1) <=? v mod 2 ^ bits) eqn:C.
    + apply Z.leb_le in C. lia.
    + apply Z.leb_gt in C. lia.
  - exact R.
Qed.





(* ------------------------------------------------------------------ *)
(** ** The schemas the builder produces *)

Lemma forallb_update_back {A} (P : A -> bool) (g : A -> A) (l : list A) :
  (forall x, P x = true -> P (g x) = true) ->
  forallb P l = true -> forallb P (builder.update_back g l) = true.
Proof.
  intros Hg. induction l as [|x rest IH]; [reflexivity|].
  intro H. simpl in H. apply andb_true_iff in H. destruct H as [Hx Hr].
  destruct rest as [|y rest'].
  - simpl. rewrite (Hg x Hx). reflexivity.
  - change (forallb P (x :: builder.update_back g (y :: rest')) = true).
    change (P x && forallb P (builder.update_back g (y :: rest')) = true).
    rewrite Hx, (IH Hr). reflexivity.
Qed.

(** An array enters a component at the top level and without children,
    so a two-level schema stays two-level. *)
Lemma begin_array_keeps_flat {World : Type}
    (Counter : World -> EntityRef -> u32)
    (Adder Remover : World -> EntityRef -> u32 -> World)
    (name : string) (b b' : builder.t) :
  builder.begin_array Counter Adder Remover name b = Some b' ->
  forallb (fun c => flat (props c)) (cmps (builder.module b)) = true ->
  forallb (fun c => flat (props c)) (cmps (builder.module b')) = true.
Proof.
  unfold builder.begin_array.
  destruct (builder.back (cmps (builder.module b))) as [open_cmp|]; [|discriminate].
  intro H. injection H as <-. cbn [builder.module cmps].
  apply forallb_update_back. intros c Hc.
  unfold builder.push_prop. cbn [props]. unfold flat in *.
  rewrite forallb_app, Hc. reflexivity.
Qed.

(** After [cmp], the new component is the open one: a [function] that
    follows lands in it. *)
Lemma function_after_cmp {World : Type} (tc : Toolchain)
    (getComponentType : string -> ComponentType)
    (Creator Destroyer : World -> EntityRef -> World) (name label fname : string)
    (F : Method) (b : builder.t) :
  exists c,
    cmps (builder.module
            (builder.function tc F fname
               (builder.cmp getComponentType Creator Destroyer name label b)))
    = cmps (builder.module b) ++ [c] /\
    cmp_name c = name /\
    functions c = [Function tc F fname].
Proof.
  unfold builder.function, builder.cmp, builder.registerCmp.
  cbn [builder.module builder.with_module cmps mod_functions events mod_name].
  destruct (cmps (builder.module b) ++ _) eqn:E.
  - destruct (cmps (builder.module b)); discriminate E.
  - rewrite <- E. cbn [builder.module builder.with_module cmps].
    rewrite update_back_last. eexists. split; [reflexivity|]. split; reflexivity.
Qed.

(* ------------------------------------------------------------------ *)
(** ** Types that share a tag *)

(** [getVariantType] sends several declared types to one tag, and a
    parameter passed by const reference to the tag of its value type. *)
Lemma getVariantType_shared_tags :
  getVariantType TPath = getVariantType TCStr /\
  getVariantType TEntityRef = getVariantType TEntityPtr /\
  (forall a b, getVariantType (TPointer (TNamed a)) = getVariantType (TNamed b)) /\
  getVariantType (TRef (TConst TVec3)) = getVariantType TVec3.
Proof. repeat split. Qed.

(* ================================================================== *)
(** * Further properties of the header *)

(** ** Type descriptors of a signature *)

Lemma expand_nth (tc : Toolchain) (Args : list CType) (i : nat) :
  (i < List.length Args)%nat ->
  nth i (expand tc Args) void_sentinel = toTypeDescriptor tc (nth i Args TVoid).
Proof.
  intro H. unfold expand.
  rewrite app_nth1 by (rewrite length_map; exact H).
  rewrite (nth_indep _ void_sentinel (toTypeDescriptor tc TVoid))
    by (rewrite length_map; exact H).
  apply map_nth.
Qed.

Lemma expand_sentinel (tc : Toolchain) (Args : list CType) :
  nth (List.length Args) (expand tc Args) void_sentinel = void_sentinel.
Proof.
  unfold expand. rewrite app_nth2 by (rewrite length_map; lia).
  rewrite length_map, Nat.sub_diag. reflexivity.
Qed.

(** X1. Below the argument count, [getArgType(i)] of a [Function] and of
    an [Event] is the descriptor of the i-th declared parameter; at the
    argument count itself it is the trailing element of the array, whose
    tag is VOID and whose other fields are zero, also when there are no
    parameters at all. *)
Theorem getArgType_within_and_at_count :
  forall (World : Type) (tc : Toolchain) (F : Method (World := World)) (name : string)
         (ev : Event),
    (forall i, (i < List.length (m_Args F))%nat ->
       getArgType (Function tc F name) (Z.of_nat i)
       = toTypeDescriptor tc (nth i (m_Args F) TVoid)) /\
    (forall i, (i < List.length (ev_Args ev))%nat ->
       Event_getArgType tc ev (Z.of_nat i)
       = toTypeDescriptor tc (nth i (ev_Args ev) TVoid)) /\
    getArgType (Function tc F name) (getArgCount (Function tc F name)) = void_sentinel /\
    Event_getArgType tc ev (Event_getArgCount ev) = void_sentinel /\
    td_type void_sentinel = Variant.VOID.
Proof.
  intros World tc F name ev.
  unfold Event_getArgType, Event_getArgCount. simpl getArgType. simpl getArgCount.
  unfold ArgToTypeDescriptor_get.
  split; [|split; [|split; [|split]]].
  - intros i Hi. rewrite Nat2Z.id. apply expand_nth. exact Hi.
  - intros i Hi. rewrite Nat2Z.id. apply expand_nth. exact Hi.
  - rewrite Nat2Z.id. apply expand_sentinel.
  - rewrite Nat2Z.id. apply expand_sentinel.
  - reflexivity.
Qed.

Lemma getArgType_within_and_at_count_sample :
  getArgType (Function sample_tc sample_bump "bump") 0
  = toTypeDescriptor sample_tc TI32 /\
  getArgType (Function sample_tc sample_bump "bump") 1 = void_sentinel.
Proof.
  destruct (getArgType_within_and_at_count Store sample_tc sample_bump "bump"
              sample_event) as (H1 & _ & H3 & _).
  split; [apply (H1 0%nat); simpl; lia | exact H3].
Defined.

(** X2. The tag VOID stands for [void] alone: a declared type gets it
    exactly when it is [void] under its qualifiers.  So the trailing VOID
    element of a descriptor array cannot be taken for a parameter. *)
Theorem getVariantType_VOID_iff_void :
  forall t : CType, getVariantType t = Variant.VOID <-> RemoveCVR t = TVoid.
Proof.
  intro t. unfold getVariantType.
  destruct (RemoveCVR t) as [ | | | | | | | | | | | | | | | n | c | p | r];
    simpl; split; intro H; try reflexivity; try discriminate H.
  destruct p as [ | | | | | | | | | | | | | | | n | c | p' | r]; try discriminate H.
  destruct c; discriminate H.
Qed.

(** X3. Qualifiers do not reach the tag: for a type [T] that is not
    itself const or a reference, [T], [const T], [T&] and [const T&] all
    have the tag of [T]. *)
Theorem getVariantType_ignores_qualifiers :
  forall t : CType,
    unqualified t = true ->
    getVariantType (TConst t) = getVariantType t /\
    getVariantType (TRef t) = getVariantType t /\
    getVariantType (TRef (TConst t)) = getVariantType t.
Proof.
  intros t H. destruct t; try discriminate H; repeat split.
Qed.

Lemma getVariantType_ignores_qualifiers_sample :
  getVariantType (TRef (TConst TVec3)) = Variant.VEC3.
Proof.
  exact (proj2 (proj2 (getVariantType_ignores_qualifiers TVec3 eq_refl))).
Defined.

(* ------------------------------------------------------------------ *)
(** ** Binding a Function to an Event *)

Lemma signature_agrees_Function {World : Type} (tc : Toolchain)
    (F : Method (World := World)) (name : string) (ev : Event) :
  signature_agrees tc ev (Function tc F name) <->
  map getVariantType (m_Args F) = map getVariantType (ev_Args ev).
Proof.
  unfold signature_agrees, Event_getArgCount, Event_getArgType.
  simpl getArgCount. simpl getArgType. unfold ArgToTypeDescriptor_get.
  split.
  - intros [Hc Ht]. apply Nat2Z.inj in Hc.
    apply (nth_ext _ _ Variant.PTR Variant.PTR); [rewrite !length_map; exact Hc|].
    intros n Hn. rewrite length_map in Hn.
    specialize (Ht (Z.of_nat n)). rewrite Nat2Z.id in Ht.
    rewrite !expand_nth in Ht by lia.
    change Variant.PTR with (getVariantType (TNamed EmptyString)).
    rewrite !map_nth.
    rewrite (nth_indep (m_Args F) _ TVoid) by lia.
    rewrite (nth_indep (ev_Args ev) _ TVoid) by lia.
    apply Ht. lia.
  - intro E.
    assert (Hc : List.length (m_Args F) = List.length (ev_Args ev)).
    { apply (f_equal (@List.length _)) in E. rewrite !length_map in E. exact E. }
    split; [rewrite Hc; reflexivity|].
    intros i Hi. rewrite !expand_nth by lia.
    change (getVariantType (nth (Z.to_nat i) (m_Args F) TVoid)
            = getVariantType (nth (Z.to_nat i) (ev_Args ev) TVoid)).
    rewrite <- !(map_nth getVariantType). rewrite E. reflexivity.
Qed.

(** X4. Binding a [Function<F>] to an event succeeds exactly when the two
    parameter lists have the same tags, position by position; in
    particular a function with the event's own parameter list always
    binds. *)
Theorem Event_bind_Function_iff_same_tags :
  forall (World : Type) (tc : Toolchain) (ev : Event) (delegates : DelegateList)
         (fn_object : ptr) (F : Method (World := World)) (name : string),
    (fst (bind tc ev delegates fn_object (Function tc F name)) = true <->
     map getVariantType (m_Args F) = map getVariantType (ev_Args ev)) /\
    (m_Args F = ev_Args ev ->
     bind tc ev delegates fn_object (Function tc F name)
     = (true, delegates ++ [{| m_object_ptr := fn_object; m_stub := m_stub_addr F |}])).
Proof.
  intros World tc ev delegates fn_object F name.
  assert (Iff : fst (bind tc ev delegates fn_object (Function tc F name)) = true <->
                map getVariantType (m_Args F) = map getVariantType (ev_Args ev)).
  { rewrite <- signature_agrees_Function with (tc := tc) (name := name). split.
    - intro H.
      destruct (bind tc ev delegates fn_object (Function tc F name)) as [ok dl] eqn:B.
      simpl in H. subst ok.
      assert (D : ~ ~ signature_agrees tc ev (Function tc F name)).
      { intro N. rewrite (bind_rejects tc ev delegates fn_object _ N) in B.
        discriminate B. }
      unfold signature_agrees in *. simpl getArgCount in *.
      destruct (Z.eq_dec (Z.of_nat (List.length (m_Args F))) (Event_getArgCount ev))
        as [Ec|Nc]; [|exfalso; apply D; intros [C _]; exact (Nc C)].
      split; [exact Ec|]. intros i Hi.
      destruct (Variant.Type_eqb
                  (td_type (getArgType (Function tc F name) i))
                  (td_type (Event_getArgType tc ev i))) eqn:Et.
      + apply variant_Type_eqb_eq in Et. exact Et.
      + apply variant_Type_eqb_neq in Et. exfalso. apply D.
        intros [_ C]. exact (Et (C i Hi)).
    - intro A. rewrite (bind_accepts tc ev delegates fn_object _ A). reflexivity. }
  split; [exact Iff|].
  intro E.
  assert (A : signature_agrees tc ev (Function tc F name)).
  { apply signature_agrees_Function. rewrite E. reflexivity. }
  rewrite (bind_accepts tc ev delegates fn_object _ A). reflexivity.
Qed.

(* ------------------------------------------------------------------ *)
(** ** Variants made by the constructor and by assignment *)

(** X5. A [Variant] that was default-constructed and then only assigned
    to always names its active member: the tagged read succeeds, and the
    tag is never VOID. *)
Theorem constructed_Variant_well_tagged :
  forall v : Variant,
    constructed v ->
    type v <> Variant.VOID /\ exists x, read_tagged v = Some x.
Proof.
  intros v H. destruct H as [|v x _].
  - split; [discriminate | exists (A_i32 0); reflexivity].
  - split; [destruct x; discriminate | exists (stored x); destruct x; reflexivity].
Qed.

Lemma constructed_Variant_well_tagged_sample :
  type (assign (assign Variant_new (A_bool true)) (A_float 1065353216)) <> Variant.VOID.
Proof.
  exact (proj1 (constructed_Variant_well_tagged _
                  (constructed_assign _ (A_float 1065353216)
                     (constructed_assign _ (A_bool true) constructed_new)))).
Defined.

(* ------------------------------------------------------------------ *)
(** ** Boxing and unboxing arguments *)

Lemma fromVariant_toVariant (copy : ptr) (i : nat) (args : list Variant)
    (x : Assignable) :
  nth_error args i = Some (toVariant copy x) ->
  fromVariant i args (RemoveCVR (param_type x)) = Some (unboxed (by_value copy x)).
Proof.
  intro H. unfold fromVariant. rewrite H. destruct x; reflexivity.
Qed.

Lemma unpack_boxed (copy : ptr) (xs : list Assignable) :
  forall (before : list Variant) (after : list Variant),
    unpack (List.length before) (map param_type xs)
      (before ++ Callback_args copy xs ++ after)
    = Some (map (fun x => unboxed (by_value copy x)) xs).
Proof.
  induction xs as [|x rest IH]; intros before after; [reflexivity|].
  unfold Callback_args in *. cbn [map unpack].
  change ((toVariant copy x :: map (toVariant copy) rest) ++ after)
    with (toVariant copy x :: map (toVariant copy) rest ++ after).
  rewrite (fromVariant_toVariant copy (List.length before) _ x).
  - specialize (IH (before ++ [toVariant copy x]) after).
    rewrite length_app in IH. simpl List.length in IH.
    rewrite Nat.add_1_r in IH. rewrite <- app_assoc in IH.
    change ([toVariant copy x] ++ map (toVariant copy) rest ++ after)
      with (toVariant copy x :: map (toVariant copy) rest ++ after) in IH.
    rewrite IH. reflexivity.
  - rewrite nth_error_app2 by lia. rewrite Nat.sub_diag. reflexivity.
Qed.

Lemma by_value_not_Path (copy : ptr) (x : Assignable) :
  is_Path x = false -> by_value copy x = x.
Proof. intro H. destruct x; try reflexivity. discriminate H. Qed.

(** X6. For arguments of the types [bool], [i32], [u32], [float],
    [const char*], [EntityPtr], [Vec2], [Vec3], [Vec4], [DVec3], [void*],
    [Color] and [Quat], what [toVariant] boxes [fromVariant] unboxes: the
    array an event builds for a [Callback] unpacks, at the argument types
    themselves, to the same values in the same order.  A [Path] is the
    exception: what is boxed is the character pointer of [toVariant]'s
    own by-value copy, wherever the caller's [Path] keeps its
    characters. *)
Theorem unpack_of_Callback_args :
  forall (copy : ptr) (xs : list Assignable),
    forallb (fun x => negb (is_Path x)) xs = true ->
    unpack 0 (map param_type xs) (Callback_args copy xs) = Some (map unboxed xs) /\
    forall p : Path,
      type (toVariant copy (A_Path p)) = Variant.CSTR /\
      member_s (toVariant copy (A_Path p)) = Some copy.
Proof.
  intros copy xs Hxs. split; [|intro p; split; reflexivity].
  pose proof (unpack_boxed copy xs [] []) as H.
  simpl in H. rewrite app_nil_r in H. rewrite H. f_equal.
  apply map_ext_in. intros x Hx.
  rewrite by_value_not_Path; [reflexivity|].
  rewrite forallb_forall in Hxs. specialize (Hxs x Hx).
  apply negb_true_iff in Hxs. exact Hxs.
Qed.

Lemma unpack_of_Callback_args_sample :
  unpack 0 [TI32; TCStr] (Callback_args 12288 [A_i32 5; A_cstr 4096])
  = Some [V_i32 5; V_cstr 4096].
Proof.
  exact (proj1 (unpack_of_Callback_args 12288 [A_i32 5; A_cstr 4096] eq_refl)).
Defined.

(** X7. For an event whose declared argument types are, up to const and
    reference, parameter types of [Variant]'s assignment operators, the
    variants handed to a [Callback] are as many as the event has
    arguments and carry, position by position, the tag that the event's
    [getArgType] announces. *)
Theorem Callback_args_tags :
  forall (World : Type) (tc : Toolchain) (ev : Event) (copy : ptr)
         (xs : list Assignable),
    map RemoveCVR (ev_Args ev) = map (fun x => RemoveCVR (param_type x)) xs ->
    Z.of_nat (List.length (Callback_args copy xs)) = Event_getArgCount ev /\
    forall i, (i < List.length xs)%nat ->
      type (nth i (Callback_args copy xs) Variant_new)
      = td_type (Event_getArgType tc ev (Z.of_nat i)).
Proof.
  intros World tc ev copy xs H.
  assert (L : List.length (ev_Args ev) = List.length xs).
  { apply (f_equal (@List.length _)) in H. rewrite !length_map in H. exact H. }
  split.
  - unfold Callback_args, Event_getArgCount. rewrite length_map, L. reflexivity.
  - intros i Hi. unfold Event_getArgType. rewrite Nat2Z.id.
    rewrite expand_nth by lia. unfold Callback_args.
    change Variant_new with (toVariant copy (A_i32 0)) at 1. rewrite map_nth.
    change (type (toVariant copy (nth i xs (A_i32 0)))
            = _getVariantType (RemoveCVR (nth i (ev_Args ev) TVoid))).
    rewrite <- (map_nth RemoveCVR). rewrite H.
    rewrite (nth_indep _ (RemoveCVR TVoid) (RemoveCVR (param_type (A_i32 0))))
      by (rewrite length_map; exact Hi).
    rewrite (map_nth (fun x => RemoveCVR (param_type x))).
    destruct (nth i xs (A_i32 0)); reflexivity.
Qed.

Lemma Callback_args_tags_sample :
  type (nth 0 (Callback_args 12288 [A_cstr 4096]) Variant_new) = Variant.CSTR.
Proof.
  exact (proj2 (Callback_args_tags Store sample_tc sample_event 12288 [A_cstr 4096] eq_refl)
           0%nat (Nat.lt_0_succ 0)).
Defined.

(* ------------------------------------------------------------------ *)
(** ** More on Function::invoke *)

Lemma fromVariant_in_span (i : nat) (args : list Variant) (T : CType) (v : ArgValue) :
  fromVariant i args T = Some v -> (i < List.length args)%nat.
Proof.
  unfold fromVariant. destruct (nth_error args i) eqn:E; [|discriminate].
  intros _. apply nth_error_Some. rewrite E. discriminate.
Qed.

Lemma fromVariant_surplus (i : nat) (args extra : list Variant) (T : CType) (v : ArgValue) :
  fromVariant i args T = Some v -> fromVariant i (args ++ extra) T = Some v.
Proof.
  intro H. pose proof (fromVariant_in_span _ _ _ _ H) as Hi.
  unfold fromVariant in *. rewrite nth_error_app1 by exact Hi. exact H.
Qed.

Lemma unpack_in_span (Args : list CType) (args : list Variant) :
  forall i vals,
    unpack i Args args = Some vals ->
    List.length vals = List.length Args /\
    (Args <> [] -> (i + List.length Args <= List.length args)%nat).
Proof.
  induction Args as [|A rest IH]; intros i vals H; simpl in H.
  - injection H as <-. split; [reflexivity | intro N; contradiction].
  - destruct (fromVariant i args (RemoveCVR A)) as [v|] eqn:Ev; [|discriminate].
    destruct (unpack (S i) rest args) as [vs|] eqn:Er; [|discriminate].
    injection H as <-. destruct (IH _ _ Er) as [Hl Hs].
    split; [simpl; rewrite Hl; reflexivity|]. intros _.
    pose proof (fromVariant_in_span _ _ _ _ Ev) as Hi.
    destruct rest as [|B rest']; [simpl; lia|].
    assert (N : B :: rest' <> []) by discriminate.
    specialize (Hs N). simpl in *. lia.
Qed.

Lemma unpack_surplus (Args : list CType) (args extra : list Variant) :
  forall i vals,
    unpack i Args args = Some vals -> unpack i Args (args ++ extra) = Some vals.
Proof.
  induction Args as [|A rest IH]; intros i vals H; simpl in *; [exact H|].
  destruct (fromVariant i args (RemoveCVR A)) as [v|] eqn:Ev; [|discriminate].
  destruct (unpack (S i) rest args) as [vs|] eqn:Er; [|discriminate].
  rewrite (fromVariant_surplus _ _ extra _ _ Ev), (IH _ _ Er). exact H.
Qed.

(** X8. [invoke] indexes [args] once per declared parameter: with fewer
    variants than parameters it reads outside the span, and the call has
    no defined result. *)
Theorem Function_invoke_too_few_args :
  forall (World : Type) (tc : Toolchain) (F : Method (World := World)) (name : string)
         (inst : World) (ret_mem : list u8) (args : list Variant),
    (List.length args < List.length (m_Args F))%nat ->
    invoke (Function tc F name) inst ret_mem args = None.
Proof.
  intros World tc F name inst ret_mem args H.
  simpl invoke. unfold VariantCaller_call.
  destruct (unpack 0 (m_Args F) args) as [vals|] eqn:E; [|reflexivity].
  exfalso. destruct (unpack_in_span _ _ _ _ E) as [_ Hs].
  assert (N : m_Args F <> []) by (destruct (m_Args F); [simpl in H; lia | discriminate]).
  specialize (Hs N). lia.
Qed.

Lemma Function_invoke_too_few_args_sample :
  invoke (Function sample_tc sample_bump "bump") [] [9; 9; 9; 9] [] = None.
Proof.
  apply (Function_invoke_too_few_args Store sample_tc sample_bump "bump").
  simpl. lia.
Defined.

(** X9. Variants beyond the declared parameters are never looked at: a
    call that is defined gives the same result with any further variants
    appended to [args]. *)
Theorem Function_invoke_ignores_surplus_args :
  forall (World : Type) (tc : Toolchain) (F : Method (World := World)) (name : string)
         (inst : World) (ret_mem : list u8) (args extra : list Variant)
         (result : World * list u8),
    invoke (Function tc F name) inst ret_mem args = Some result ->
    invoke (Function tc F name) inst ret_mem (args ++ extra) = Some result.
Proof.
  intros World tc F name inst ret_mem args extra result.
  simpl invoke. unfold VariantCaller_call.
  destruct (unpack 0 (m_Args F) args) as [vals|] eqn:E; [|discriminate].
  rewrite (unpack_surplus _ _ extra _ _ E). intro H. exact H.
Qed.

Lemma Function_invoke_ignores_surplus_args_sample :
  invoke (Function sample_tc sample_bump "bump") [] [9; 9; 9; 9]
    ([assign Variant_new (A_i32 5)] ++ [assign Variant_new (A_bool true)])
  = Some ([(0, 5)], [5; 0; 0; 0]).
Proof.
  apply (Function_invoke_ignores_surplus_args Store sample_tc sample_bump "bump").
  reflexivity.
Defined.

(** X10. [invoke] never writes outside [ret_mem]: whatever the result
    type and whatever room the caller gave, [ret_mem] has the same length
    afterwards (the method's result being [sizeof(R)] bytes). *)
Theorem Function_invoke_keeps_ret_mem_length :
  forall (World : Type) (tc : Toolchain) (F : Method (World := World)) (name : string)
         (inst inst' : World) (ret_mem ret_mem' : list u8) (args : list Variant),
    (forall o a, Z.of_nat (List.length (snd (m_call F o a)))
                 = sizeof tc (RemoveCVR (m_R F))) ->
    invoke (Function tc F name) inst ret_mem args = Some (inst', ret_mem') ->
    List.length ret_mem' = List.length ret_mem.
Proof.
  intros World tc F name inst inst' ret_mem ret_mem' args Hwf.
  simpl invoke. unfold VariantCaller_call.
  destruct (unpack 0 (m_Args F) args) as [vals|]; [|discriminate].
  specialize (Hwf inst vals).
  destruct (m_call F inst vals) as [o v]. simpl in Hwf.
  destruct (CType_eqb (m_R F) TVoid).
  - intro H. injection H as _ <-. reflexivity.
  - destruct (Z.of_nat (List.length ret_mem) =? sizeof tc (RemoveCVR (m_R F))) eqn:E.
    + intro H. injection H as _ <-. apply Z.eqb_eq in E.
      rewrite <- Hwf, Nat2Z.id. rewrite memcpy_whole; lia.
    + intro H. injection H as _ <-. reflexivity.
Qed.

Lemma Function_invoke_keeps_ret_mem_length_sample :
  List.length [5; 0; 0; 0] = List.length [9; 9; 9; 9].
Proof.
  apply (Function_invoke_keeps_ret_mem_length Store sample_tc sample_bump "bump"
           [] [(0, 5)] [9; 9; 9; 9] [5; 0; 0; 0] [assign Variant_new (A_i32 5)]).
  - intros o a. simpl.
    destruct a as [|[] [|]]; reflexivity.
  - reflexivity.
Defined.

(* ------------------------------------------------------------------ *)
(** ** StructVar *)

(** X11. [StructVar::set] and [StructVar::get] report a span whose
    length is not [sizeof] of the member by returning false, and then
    neither the instance nor the span is touched.  The typed helper
    [get<T>], which drops the flag, then returns its result variable as
    it found it, uninitialized. *)
Theorem StructVar_size_mismatch :
  forall (C : Type) (tc : Toolchain) (Getter : MemberPtr C) (inst : C) (mem : list u8),
    Z.of_nat (List.length mem) <> sizeof tc (mp_T Getter) ->
    StructVar_set tc Getter inst mem = (false, inst) /\
    StructVar_get tc Getter inst mem = (false, mem) /\
    StructVarBase_get tc Getter mem inst = mem /\
    StructVarBase_set tc Getter inst mem = inst.
Proof.
  intros C tc Getter inst mem H.
  unfold StructVarBase_get, StructVarBase_set, StructVar_set, StructVar_get.
  assert (E : (sizeof tc (mp_T Getter) =? Z.of_nat (List.length mem)) = false)
    by (apply Z.eqb_neq; congruence).
  rewrite E. repeat split.
Qed.

Lemma StructVar_size_mismatch_sample :
  StructVar_set sample_tc sample_member [1; 2; 3; 4; 5; 6] [7; 7]
  = (false, [1; 2; 3; 4; 5; 6]).
Proof.
  apply (StructVar_size_mismatch (list u8) sample_tc sample_member
           [1; 2; 3; 4; 5; 6] [7; 7]).
  simpl. lia.
Defined.

(** X12. With a span of exactly [sizeof] of the member, [set] returns
    true and stores the bytes, and a [get] into any span of that size
    then returns true and yields the same bytes: what was set is what is
    read. *)
Theorem StructVar_set_get_roundtrip :
  forall (C : Type) (tc : Toolchain) (Getter : MemberPtr C) (inst : C)
         (mem buffer : list u8),
    member_ok tc Getter ->
    Z.of_nat (List.length mem) = sizeof tc (mp_T Getter) ->
    Z.of_nat (List.length buffer) = sizeof tc (mp_T Getter) ->
    exists inst',
      StructVar_set tc Getter inst mem = (true, inst') /\
      mp_read Getter inst' = mem /\
      StructVar_get tc Getter inst' buffer = (true, mem).
Proof.
  intros C tc Getter inst mem buffer [Hlen Hrw] Hm Hb.
  assert (Sz : Z.to_nat (sizeof tc (mp_T Getter)) = List.length mem)
    by (rewrite <- Hm; apply Nat2Z.id).
  assert (W : memcpy (mp_read Getter inst) mem (Z.to_nat (sizeof tc (mp_T Getter))) = mem).
  { rewrite Sz. apply memcpy_whole. specialize (Hlen inst). lia. }
  exists (mp_write Getter inst mem).
  unfold StructVar_set, StructVar_get.
  rewrite <- Hm at 1. rewrite Z.eqb_refl. simpl negb. cbv iota. rewrite W.
  rewrite (Hrw inst mem Hm).
  split; [reflexivity|]. split; [reflexivity|].
  rewrite <- Hb at 1. rewrite Z.eqb_refl. simpl negb. cbv iota.
  rewrite Sz. rewrite memcpy_whole by lia. reflexivity.
Qed.

Lemma sample_member_ok : member_ok sample_tc sample_member.
Proof.
  split.
  - intro inst. simpl.
    destruct inst as [|a [|b [|c [|d rest]]]]; reflexivity.
  - intros inst bytes H. simpl in *.
    destruct bytes as [|a [|b [|c [|d [|e rest]]]]]; simpl in H; try lia.
    reflexivity.
Qed.

Lemma StructVar_set_get_roundtrip_sample :
  exists inst',
    StructVar_set sample_tc sample_member [1; 2; 3; 4; 5; 6] [7; 7; 7; 7] = (true, inst') /\
    mp_read sample_member inst' = [7; 7; 7; 7] /\
    StructVar_get sample_tc sample_member inst' [0; 0; 0; 0] = (true, [7; 7; 7; 7]).
Proof.
  apply (StructVar_set_get_roundtrip (list u8) sample_tc sample_member
           [1; 2; 3; 4; 5; 6] [7; 7; 7; 7] [0; 0; 0; 0]).
  - exact sample_member_ok.
  - reflexivity.
  - reflexivity.
Defined.

(* ------------------------------------------------------------------ *)
(** ** Attributes pushed by the builder *)

Lemma getAttribute_loop_push (attrs : list IAttribute) (a : IAttribute)
    (type : IAttribute.Type_) :
  getAttribute_loop (attrs ++ [a]) type
  = match getAttribute_loop attrs type with
    | Some found => Some found
    | None => if IAttribute.Type_eqb (getType a) type then Some a else None
    end.
Proof.
  induction attrs as [|x rest IH]; simpl; [reflexivity|].
  destruct (IAttribute.Type_eqb (getType x) type); [reflexivity | exact IH].
Qed.

(** X13. Pushing one more attribute onto a property never changes what
    [getAttribute] finds for a kind the property already had: the
    attribute registered first wins, and the new one is found only for a
    kind that was absent. *)
Theorem getAttribute_after_push :
  forall (World T : Type) (prop : Property (World := World) T) (a : IAttribute)
         (type : IAttribute.Type_),
    getAttribute (Property_push_attribute a prop) type
    = match getAttribute prop type with
      | Some found => Some found
      | None => if IAttribute.Type_eqb (getType a) type then Some a else None
      end.
Proof.
  intros World T prop a type. unfold getAttribute. simpl attributes.
  apply getAttribute_loop_push.
Qed.

(* ------------------------------------------------------------------ *)
(** ** begin_array and attribute *)

Lemma back_last {A} (init : list A) (c : A) : builder.back (init ++ [c]) = Some c.
Proof.
  induction init as [|x rest IH]; [reflexivity|].
  simpl app. cbn [builder.back]. rewrite IH.
  destruct rest; reflexivity.
Qed.

Lemma back_some {A} (l : list A) (c : A) :
  builder.back l = Some c -> exists init, l = init ++ [c].
Proof.
  induction l as [|x rest IH]; simpl; [discriminate|].
  destruct rest as [|y rest'].
  - intro H. injection H as <-. exists []. reflexivity.
  - intro H. destruct (IH H) as [init E]. exists (x :: init). rewrite E. reflexivity.
Qed.

Lemma back_none {A} (l : list A) : builder.back l = None <-> l = [].
Proof.
  split; [|intros ->; reflexivity].
  induction l as [|x rest IH]; [reflexivity|].
  simpl. destruct rest as [|y rest']; [discriminate|].
  intro H. specialize (IH H). discriminate IH.
Qed.

Lemma update_nth_last {A} (g : A -> option A) (init : list A) (c c' : A) :
  g c = Some c' ->
  update_nth (List.length init) g (init ++ [c]) = Some (init ++ [c']).
Proof.
  intro H. induction init as [|x rest IH]; simpl.
  - rewrite H. reflexivity.
  - rewrite IH. reflexivity.
Qed.

(** X14. [begin_array] is defined exactly when a component is open.  It
    then leaves [last_prop] pointing at the new array, which has neither
    children nor attributes, so an [attribute] that follows lands on that
    array and on nothing else. *)
Theorem begin_array_then_attribute :
  forall (World : Type) (Counter : World -> EntityRef -> u32)
         (Adder Remover : World -> EntityRef -> u32 -> World)
         (name : string) (a : IAttribute) (b : builder.t),
    (builder.begin_array Counter Adder Remover name b = None <->
     cmps (builder.module b) = []) /\
    forall init c,
      cmps (builder.module b) = init ++ [c] ->
      exists b1 b2,
        builder.begin_array Counter Adder Remover name b = Some b1 /\
        last_prop_target b1 = Some (ArrayProperty name [] [] Counter Adder Remover) /\
        attribute a b1 = Some b2 /\
        cmps (builder.module b2)
        = init ++ [with_props c
                     (props c ++ [ArrayProperty name [a] [] Counter Adder Remover])] /\
        last_prop_target b2 = Some (ArrayProperty name [a] [] Counter Adder Remover).
Proof.
  intros World Counter Adder Remover name a b. split.
  - unfold builder.begin_array.
    destruct (builder.back (cmps (builder.module b))) as [c|] eqn:E.
    + split; [discriminate|]. intro H. rewrite H in E. discriminate E.
    + split; [intros _; apply back_none; exact E | reflexivity].
  - intros init c E.
    unfold builder.begin_array. rewrite E, back_last, update_back_last.
    eexists. eexists. split; [reflexivity|].
    assert (Len : Nat.pred (List.length (init ++ [c])) = List.length init)
      by (rewrite length_app; simpl; lia).
    rewrite Len.
    assert (T1 : forall attrs,
               lookup_at [List.length (props c)]
                 (props c ++ [ArrayProperty name attrs [] Counter Adder Remover])
               = Some (ArrayProperty name attrs [] Counter Adder Remover)).
    { intro attrs. unfold lookup_at.
      rewrite nth_error_app2 by lia. rewrite Nat.sub_diag. reflexivity. }
    split.
    + unfold last_prop_target.
      cbn [builder.last_prop builder.module cmps].
      rewrite nth_error_app2 by lia. rewrite Nat.sub_diag.
      cbn [nth_error builder.push_prop props]. apply T1.
    + unfold attribute. cbn [builder.last_prop builder.module cmps].
      rewrite (update_nth_last _ init (builder.push_prop _ c)
                 (with_props c
                    (props c ++ [ArrayProperty name [a] [] Counter Adder Remover]))).
      * split; [reflexivity|]. split; [reflexivity|].
        unfold last_prop_target.
        cbn [builder.last_prop builder.module cmps].
        rewrite nth_error_app2 by lia. rewrite Nat.sub_diag.
        cbn [nth_error with_props props]. apply T1.
      * cbn [builder.push_prop props update_at].
        rewrite (update_nth_last _ (props c) _
                   (ArrayProperty name [a] [] Counter Adder Remover)) by reflexivity.
        reflexivity.
Qed.

Lemma begin_array_then_attribute_sample :
  exists b1 b2,
    builder.begin_array (fun _ _ => 2) (fun w _ _ => w) (fun w _ _ => w) "bones"
      sample_builder1 = Some b1 /\
    attribute ColorAttribute b1 = Some b2.
Proof.
  destruct (proj2 (begin_array_then_attribute Store (fun _ _ => 2) (fun w _ _ => w)
                     (fun w _ _ => w) "bones" ColorAttribute sample_builder1)
              [] sample_cmp eq_refl)
    as (b1 & b2 & H1 & _ & H2 & _).
  exists b1, b2. split; assumption.
Defined.

(** The flat schema is kept by [begin_array], on the sample builder. *)
Lemma begin_array_keeps_flat_sample :
  match builder.begin_array (fun _ _ => 2) (fun w _ _ => w) (fun w _ _ => w) "bones"
          sample_builder1 with
  | Some b' => forallb (fun c => flat (props c)) (cmps (builder.module b')) = true
  | None => True
  end.
Proof.
  destruct (builder.begin_array (fun _ _ => 2) (fun w _ _ => w) (fun w _ _ => w) "bones"
              sample_builder1) as [b'|] eqn:H; [|exact I].
  exact (begin_array_keeps_flat (World := Store) _ _ _ "bones" sample_builder1 b' H eq_refl).
Defined.

(* ------------------------------------------------------------------ *)
(** ** Walks of schemas of any depth *)

Section DeepWalks.

Context {World : Type}.

(** Induction over a property and, for an array, all of its children. *)
Lemma PropertyBase_nested_ind (P : PropertyBase (World := World) -> Prop) :
  (forall k prop, P (PropertyOf k prop)) ->
  (forall n attrs children c ad r,
      Forall P children -> P (ArrayProperty n attrs children c ad r)) ->
  (forall n attrs g s, P (BlobProperty n attrs g s)) ->
  forall p, P p.
Proof.
  intros HP HA HB. fix IH 1. intro p.
  destruct p as [k prop | n attrs children c ad r | n attrs g s].
  - apply HP.
  - apply HA. induction children as [|x rest IHc]; constructor; [apply IH | exact IHc].
  - apply HB.
Qed.

Lemma preorder_array n attrs (children : list (PropertyBase (World := World))) c ad r :
  preorder (ArrayProperty n attrs children c ad r)
  = ArrayProperty n attrs children c ad r :: preorder_all children.
Proof.
  reflexivity.
Qed.

Lemma visit_all_app {St} (visitor : IPropertyVisitor (World := World) St)
    (l1 l2 : list PropertyBase) (st : St) :
  visit_all visitor (l1 ++ l2) st = visit_all visitor l2 (visit_all visitor l1 st).
Proof.
  revert st. induction l1 as [|x rest IH]; intro st; [reflexivity|].
  simpl. apply IH.
Qed.

Lemma walk_visits_all (l : list (PropertyBase (World := World))) :
  Forall (fun p => forall h : Helper (list Call),
              map fst (env (PropertyBase_visit (Helper_visitor _ record_call) p h))
              = map fst (env h) ++ preorder p) l ->
  forall h : Helper (list Call),
    map fst (env (visit_all (Helper_visitor _ record_call) l h))
    = map fst (env h) ++ preorder_all l.
Proof.
  induction 1 as [|p rest Hp _ IH]; intro h; simpl.
  - symmetry. apply app_nil_r.
  - rewrite IH, Hp. unfold preorder_all. simpl flat_map.
    rewrite <- app_assoc. reflexivity.
Qed.

Lemma walk_visits_preorder (p : PropertyBase (World := World)) :
  forall h : Helper (list Call),
    map fst (env (PropertyBase_visit (Helper_visitor _ record_call) p h))
    = map fst (env h) ++ preorder p.
Proof.
  induction p as [k prop | n attrs children c ad r IH | n attrs g s]
    using PropertyBase_nested_ind; intro h.
  - simpl. unfold record_call. rewrite map_app. reflexivity.
  - rewrite visit_array_unfold, preorder_array. simpl visit_ArrayProperty.
    cbn [set_parent env].
    rewrite (walk_visits_all children IH). cbn [set_parent call_f env].
    unfold record_call. rewrite map_app, <- app_assoc. reflexivity.
  - simpl. unfold record_call. rewrite map_app. reflexivity.
Qed.

(** After an array has been visited, [parent] is null, whatever it was
    before; a property that is not an array leaves it alone. *)
Lemma parent_after_visit (S : Type)
    (f : PropertyBase (World := World) -> option PropertyBase -> S -> S)
    (p : PropertyBase) (h : Helper S) :
  parent (PropertyBase_visit (Helper_visitor S f) p h)
  = if is_array p then None else parent h.
Proof.
  destruct p as [k prop | n attrs children c ad r | n attrs g s];
    [reflexivity | | reflexivity].
  rewrite visit_array_unfold. reflexivity.
Qed.

End DeepWalks.

(** X15. Whatever the depth of the schema, [forEachProperty] calls [f]
    exactly once for every property of the component, a parent before its
    children and siblings in registration order. *)
Theorem forEachProperty_visits_every_property :
  forall (World : Type)
         (getComponent : ComponentType -> option (ComponentBase (World := World)))
         (cmp_type : ComponentType) (cmp : ComponentBase),
    getComponent cmp_type = Some cmp ->
    map fst (forEachProperty getComponent _ record_call cmp_type [])
    = preorder_all (props cmp) /\
    List.length (forEachProperty getComponent _ record_call cmp_type [])
    = List.length (preorder_all (props cmp)).
Proof.
  intros World getComponent cmp_type cmp H.
  assert (E : map fst (forEachProperty getComponent _ record_call cmp_type [])
              = preorder_all (props cmp)).
  { unfold forEachProperty, ComponentBase_visit. rewrite H.
    rewrite walk_visits_all; [reflexivity|].
    apply Forall_forall. intros p _. apply walk_visits_preorder. }
  split; [exact E|]. rewrite <- E. symmetry. apply length_map.
Qed.

Lemma forEachProperty_visits_every_property_sample :
  List.length (forEachProperty sample_registry _ record_call 7 []) = 4%nat.
Proof.
  exact (proj2 (forEachProperty_visits_every_property Store sample_registry 7
                  sample_cmp eq_refl)).
Defined.

(** X16. [parent] is one pointer, not a stack: when an array sits among
    the children of another array, its own children are reported with it
    as parent, and the children of the outer array that come after it are
    reported with a null parent, like top-level properties. *)
Theorem forEachProperty_parent_after_nested_array :
  forall (World : Type)
         (getComponent : ComponentType -> option (ComponentBase (World := World)))
         (cmp_type : ComponentType) (cmp : ComponentBase)
         (n : string) (attrs : list IAttribute) (pre post : list PropertyBase)
         (q : PropertyBase) c ad r,
    let outer := ArrayProperty n attrs (pre ++ q :: post) c ad r in
    getComponent cmp_type = Some cmp ->
    props cmp = [outer] ->
    is_array q = true ->
    forallb (fun x => negb (is_array x)) pre = true ->
    forallb (fun x => negb (is_array x)) (children_of q) = true ->
    forallb (fun x => negb (is_array x)) post = true ->
    forEachProperty getComponent _ record_call cmp_type []
    = (outer, None) :: map (fun x => (x, Some outer)) pre
      ++ (q, Some outer) :: map (fun x => (x, Some q)) (children_of q)
      ++ map (fun x => (x, None)) post.
Proof.
  intros World getComponent cmp_type cmp n attrs pre post q c ad r outer
         Hget Hprops Hq Hpre Hqc Hpost.
  unfold forEachProperty, ComponentBase_visit. rewrite Hget, Hprops.
  cbn [visit_all]. subst outer. rewrite visit_array_unfold.
  set (outer := ArrayProperty n attrs (pre ++ q :: post) c ad r).
  simpl visit_ArrayProperty. cbn [set_parent env].
  rewrite visit_all_app. cbn [visit_all].
  rewrite (visit_leaves _ record_call pre Hpre).
  cbn [set_parent call_f parent env].
  destruct q as [k prop | qn qattrs qchildren qc qad qr | qn qattrs qg qs];
    try discriminate Hq.
  rewrite visit_array_unfold.
  set (inner := ArrayProperty qn qattrs qchildren qc qad qr).
  simpl visit_ArrayProperty. cbn [children_of] in Hqc.
  rewrite (visit_leaves _ record_call qchildren Hqc).
  cbn [set_parent call_f parent env].
  rewrite (visit_leaves _ record_call post Hpost).
  cbn [set_parent call_f parent env].
  rewrite !replay_record_call. unfold record_call. cbn [children_of inner].
  simpl app. rewrite <- !app_assoc. reflexivity.
Qed.

Lemma forEachProperty_parent_after_nested_array_sample :
  forEachProperty sample_nested_registry _ record_call 9 []
  = [(sample_outer, None);
     (PropertyOf K_int sample_count, Some sample_outer);
     (sample_inner, Some sample_outer);
     (PropertyOf K_float sample_distance, Some sample_inner);
     (PropertyOf K_int sample_mode, None)].
Proof.
  exact (forEachProperty_parent_after_nested_array Store sample_nested_registry 9
           sample_nested_cmp "tracks" [] [PropertyOf K_int sample_count]
           [PropertyOf K_int sample_mode] sample_inner
           (fun _ _ => 1) (fun w _ _ => w) (fun w _ _ => w)
           eq_refl eq_refl eq_refl eq_refl eq_refl eq_refl).
Defined.

(* ------------------------------------------------------------------ *)
(** ** Visitors that look at one kind only *)

Lemma visit_hidden_array {World St : Type} (visitor : IPropertyVisitor (World := World) St)
    (p : PropertyBase) (st : St) :
  (forall a visitChildren s, visit_ArrayProperty visitor a visitChildren s = s) ->
  is_array p = true ->
  PropertyBase_visit visitor p st = st.
Proof.
  intros H Hp. destruct p; try discriminate Hp.
  rewrite visit_array_unfold. apply H.
Qed.

(** X17. A visitor that keeps the empty [ArrayProperty] overload of
    [IEmptyPropertyVisitor] never reaches anything inside an array,
    whatever its other overloads do: walking a component with it is the
    same as walking only the component's top-level properties that are
    not arrays. *)
Theorem empty_array_overload_hides_arrays :
  forall (World St : Type) (visitor : IPropertyVisitor (World := World) St)
         (cmp : ComponentBase) (st : St),
    (forall a visitChildren s, visit_ArrayProperty visitor a visitChildren s = s) ->
    ComponentBase_visit cmp visitor st
    = visit_all visitor (filter (fun p => negb (is_array p)) (props cmp)) st.
Proof.
  intros World St visitor cmp st H. unfold ComponentBase_visit.
  revert st. induction (props cmp) as [|p rest IH]; intro st; [reflexivity|].
  cbn [visit_all filter]. destruct (is_array p) eqn:E; cbn [negb].
  - rewrite (visit_hidden_array visitor p st H E). apply IH.
  - cbn [visit_all]. apply IH.
Qed.

Lemma empty_array_overload_hides_arrays_sample :
  ComponentBase_visit sample_cmp
    (finder_visitor K_float (sample_uid [(3, 42)]) "distance")
    (Build_Finder K_float 0 false)
  = visit_all (finder_visitor K_float (sample_uid [(3, 42)]) "distance")
      [PropertyOf K_int sample_count] (Build_Finder K_float 0 false).
Proof.
  apply (empty_array_overload_hides_arrays Store (Finder K_float)
           (finder_visitor K_float (sample_uid [(3, 42)]) "distance") sample_cmp).
  intros a visitChildren s. reflexivity.
Defined.

Lemma last_match_filter {World : Type} (k : PropKind) (prop_name : string)
    (l : list (PropertyBase (World := World))) :
  forall sofar,
    last_match k prop_name (filter (is_Property_of k) l) sofar
    = last_match k prop_name l sofar.
Proof.
  induction l as [|p rest IH]; intro sofar; [reflexivity|].
  cbn [filter last_match]. unfold is_Property_of at 1.
  destruct (as_Property k p) as [prop|] eqn:E.
  - cbn [last_match]. rewrite E.
    destruct (String.eqb (name prop) prop_name); apply IH.
  - apply IH.
Qed.

(** X18. [getPropertyValue<T>] depends on nothing but the top-level
    [Property<T>] entries of the component: with every array, blob and
    property of another value type taken out of the component, it returns
    the same flag and the same value. *)
Theorem getPropertyValue_only_sees_Property_T :
  forall (World : Type)
         (getComponent getComponent' : ComponentType -> option (ComponentBase (World := World)))
         (k : PropKind) (value_init : val k) (module : World) (e : EntityRef)
         (cmp_type : ComponentType) (prop_name : string) (cmp cmp' : ComponentBase),
    getComponent cmp_type = Some cmp ->
    getComponent' cmp_type = Some cmp' ->
    props cmp' = filter (is_Property_of k) (props cmp) ->
    getPropertyValue getComponent' k value_init module e cmp_type prop_name
    = getPropertyValue getComponent k value_init module e cmp_type prop_name.
Proof.
  intros World getComponent getComponent' k value_init module e cmp_type prop_name
         cmp cmp' H H' Hp.
  unfold getPropertyValue, ComponentBase_visit. rewrite H, H'.
  set (uid := {| cuid_module := module; cuid_type := cmp_type;
                 cuid_entity := EntityPtr_of e |}).
  set (st0 := {| value := value_init; found := false |}).
  change st0 with (finder_result uid None st0).
  rewrite !finder_visit_all. rewrite Hp, last_match_filter. reflexivity.
Qed.

Lemma getPropertyValue_only_sees_Property_T_sample :
  getPropertyValue sample_registry_ints K_int 0 [(3, 42)] {| er_index := 3 |} 7 "count"
  = getPropertyValue sample_registry K_int 0 [(3, 42)] {| er_index := 3 |} 7 "count".
Proof.
  exact (getPropertyValue_only_sees_Property_T Store sample_registry sample_registry_ints
           K_int 0 [(3, 42)] {| er_index := 3 |} 7 "count" sample_cmp sample_cmp_ints
           eq_refl eq_refl eq_refl).
Defined.

(* ------------------------------------------------------------------ *)
(** ** Properties built by prop, once more *)

(** X19. For a getter whose result type is not an enum, the thunks of
    [prop<Getter, Setter>] pass values through unchanged: over a module
    whose getter reads what its setter stored, [get] after [set(v)]
    returns [v], for every [v]. *)
Theorem builder_prop_plain_roundtrip :
  forall (World : Type) (k : PropKind)
         (Getter : builder.GetterPtr (World := World) (val k))
         (Setter : builder.SetterPtr (World := World) (val k)) (name : string),
    (forall module e idx x,
        builder.call_Getter Getter (builder.call_Setter Setter module e idx x) e idx = x) ->
    let p : Property (val k) :=
      builder.new_Property (R_plain k) Getter (Some Setter) name in
    forall (cmp : ComponentUID) (idx : u32) (v : val k),
    exists module',
      set p cmp idx v = Some module' /\
      get p {| cuid_module := module'; cuid_type := cuid_type cmp;
               cuid_entity := cuid_entity cmp |} idx = v.
Proof.
  intros World k Getter Setter name Hlaw p cmp idx v.
  exists (builder.call_Setter Setter (cuid_module cmp)
            (EntityRef_of (cuid_entity cmp)) idx v).
  split; [reflexivity|].
  unfold get. cbn [cuid_module cuid_entity]. subst p. cbn [getter builder.new_Property].
  cbn [builder.getter_lambda]. apply Hlaw.
Qed.

Lemma builder_prop_plain_roundtrip_sample :
  exists module',
    set sample_count (sample_uid []) 0 77 = Some module' /\
    get sample_count {| cuid_module := module'; cuid_type := 7;
                        cuid_entity := {| ep_index := 3 |} |} 0 = 77.
Proof.
  refine (builder_prop_plain_roundtrip Store K_int
            (builder.Getter1 (fun w e => store_get w (er_index e)))
            (builder.Setter2 (fun w e v => store_set w (er_index e) v)) "count"
            _ (sample_uid []) 0 77).
  intros module e idx x. simpl. rewrite Z.eqb_refl. reflexivity.
Defined.

(** X20. The casts of an enum-backed property keep both sides in range:
    whatever [i32] is set, the module's setter receives a value of the
    enum's underlying type, and whatever the module's getter returns,
    [get] yields a value of [i32]. *)
Theorem builder_prop_enum_ranges :
  forall (World : Type) (en : EnumT) (Getter : builder.GetterPtr (World := World) Z)
         (Setter : builder.SetterPtr (World := World) Z) (name : string),
    0 < enum_bits en ->
    let p : Property (val K_int) :=
      builder.new_Property (R_enum en) Getter (Some Setter) name in
    (forall cmp idx, in_i32 (get p cmp idx)) /\
    (forall cmp idx v,
        exists x,
          enum_value en x /\
          set p cmp idx v
          = Some (builder.call_Setter Setter (cuid_module cmp)
                    (EntityRef_of (cuid_entity cmp)) idx x)).
Proof.
  intros World en Getter Setter name Hb p. split.
  - intros cmp idx. unfold get. subst p. cbn [getter builder.new_Property].
    cbn [builder.getter_lambda]. unfold i32_of_enum, to_i32, in_i32.
    apply (wrap_range 32 true). lia.
  - intros cmp idx v. exists (enum_of_i32 en v). split; [|reflexivity].
    unfold enum_value, enum_of_i32.
    pose proof (wrap_range (enum_bits en) (enum_signed en) v Hb) as R.
    destruct (enum_signed en); exact R.
Qed.

Lemma builder_prop_enum_ranges_sample :
  in_i32 (get sample_mode (sample_uid [(3, 5000000000)]) 0).
Proof.
  refine (proj1 (builder_prop_enum_ranges Store sample_enum
                   (builder.Getter1 (fun w e => store_get w (er_index e)))
                   (builder.Setter2 (fun w e v => store_set w (er_index e) v)) "mode" _)
            (sample_uid [(3, 5000000000)]) 0).
  reflexivity.
Defined.

(* ------------------------------------------------------------------ *)
(** ** GetTypeName *)

Lemma substring_skip (a s : string) (m : nat) :
  substring (String.length a) m (a ++ s) = substring 0 m s.
Proof.
  induction a as [|ch a IH]; [reflexivity|].
  simpl. exact IH.
Qed.

Lemma substring_prefix (t s : string) :
  substring 0 (String.length t) (t ++ s) = t.
Proof.
  induction t as [|ch t IH]; simpl.
  - destruct s; reflexivity.
  - rewrite IH. reflexivity.
Qed.

Lemma length_append (a b : string) :
  String.length (a ++ b) = (String.length a + String.length b)%nat.
Proof.
  induction a as [|ch a IH]; simpl; [reflexivity | rewrite IH; reflexivity].
Qed.

(** X21. When the compiler spells the function as the fixed front, the
    type's spelling and the fixed back, [GetTypeName] returns exactly the
    type's spelling, nothing cut off and nothing left over; an empty
    spelling included. *)
Theorem GetTypeName_cuts_out_the_type :
  forall T : string,
    Z.of_nat (String.length T) < 2 ^ 32 ->
    GetTypeName ("Lumix::reflection::detail::GetTypeNameHelper<" ++ T ++ ">::GetTypeName")
    = T.
Proof.
  intros T Hlen. unfold GetTypeName.
  set (front := "Lumix::reflection::detail::GetTypeNameHelper<").
  set (back := ">::GetTypeName").
  assert (F : FRONT_SIZE = Z.of_nat (String.length front)) by reflexivity.
  assert (B : BACK_SIZE = Z.of_nat (String.length back)) by reflexivity.
  rewrite !length_append.
  assert (Lf : String.length front = 45%nat) by reflexivity.
  assert (Lb : String.length back = 14%nat) by reflexivity.
  rewrite F, B, Lf, Lb.
  replace ((Z.of_nat (45 + (String.length T + 14)) + 1 - Z.of_nat 45 - Z.of_nat 14)
             mod 2 ^ 64)
    with (Z.of_nat (String.length T) + 1).
  2:{ rewrite Z.mod_small; lia. }
  replace ((Z.of_nat (String.length T) + 1 - 1) mod 2 ^ 64)
    with (Z.of_nat (String.length T)).
  2:{ rewrite Z.mod_small; lia. }
  rewrite !Nat2Z.id. rewrite <- Lf.
  rewrite substring_skip. apply substring_prefix.
Qed.

Lemma GetTypeName_cuts_out_the_type_sample :
  GetTypeName "Lumix::reflection::detail::GetTypeNameHelper<Lumix::Vec3>::GetTypeName"
  = "Lumix::Vec3".
Proof.
  apply (GetTypeName_cuts_out_the_type "Lumix::Vec3"). reflexivity.
Defined.

(* ------------------------------------------------------------------ *)
(** ** The flags of a type descriptor *)

Lemma CType_eqb_refl (t : CType) : CType_eqb t t = true.
Proof.
  induction t; simpl; try reflexivity; try assumption.
  apply String.eqb_refl.
Qed.

Lemma CType_eqb_TConst (t : CType) : CType_eqb (TConst t) t = false.
Proof. induction t; simpl; try reflexivity. exact IHt. Qed.

Lemma CType_eqb_TPointer (t : CType) : CType_eqb (TPointer t) t = false.
Proof. induction t; simpl; try reflexivity. exact IHt. Qed.

Lemma CType_eqb_TRef (t : CType) : CType_eqb (TRef t) t = false.
Proof. induction t; simpl; try reflexivity. exact IHt. Qed.

(** X22. In the descriptor of a type, [is_pointer] is set exactly for a
    pointer type, [is_reference] exactly for a reference type and
    [is_const] exactly for a type that is const on the outside; so a
    [const T&] parameter is described as a reference and not as const.
    The size of [void] is recorded as 0 without asking [sizeof]. *)
Theorem toTypeDescriptor_flags :
  forall (tc : Toolchain) (T : CType),
    is_pointer (toTypeDescriptor tc T)
    = match T with TPointer _ => true | _ => false end /\
    is_reference (toTypeDescriptor tc T)
    = match T with TRef _ => true | _ => false end /\
    is_const (toTypeDescriptor tc T)
    = match T with TConst _ => true | _ => false end /\
    (forall U, is_const (toTypeDescriptor tc (TRef (TConst U))) = false) /\
    size (toTypeDescriptor tc TVoid) = 0.
Proof.
  intros tc T. unfold toTypeDescriptor. cbn [is_pointer is_reference is_const size].
  repeat split.
  - destruct T; cbn [RemovePointer]; rewrite ?CType_eqb_refl, ?CType_eqb_TPointer; reflexivity.
  - destruct T; cbn [RemoveReference]; rewrite ?CType_eqb_refl, ?CType_eqb_TRef; reflexivity.
  - destruct T; cbn [RemoveConst]; rewrite ?CType_eqb_refl, ?CType_eqb_TConst; reflexivity.
  - intro U. cbn [RemoveConst]. rewrite CType_eqb_refl. reflexivity.
Qed.
